(** * Card_sender.py: contact parsing, birthday window, postage link, card preset

    A shallow embedding of the logic of [src/Card_sender.py]:
    - [load_contacts_from_file]   (lines 29-52)
    - [check_upcoming_birthdays]  (lines 54-88)
    - the template choice of [create_birthday_card] (lines 133-140)
    - [generate_usps_postage_link] (lines 192-197)

    Python values are modelled as follows.
    - [str]: the list of its Unicode code points ([pystr]).
    - [bytes]: [list byte].
    - [int]: [Z].
    - a [DataFrame] built from a list of dicts: the list of its rows, each row
      a record with one field per column.
    - [datetime], [timedelta]: records of integers, with the arithmetic of
      CPython's [datetime] module.
    - [st.error(...)]: an entry in the log of messages shown to the user. *)

From Stdlib Require Import ZArith List Lia Bool.
From Stdlib.Strings Require Import Ascii String Byte.
From stdpp Require Import base option list gmap.
Import ListNotations.
Local Open Scope Z_scope.

(** ** Python [str] *)

Module Str.

Definition pystr : Type := list Z.

(** A literal of the source text, as code points. *)
Definition py (s : string) : pystr :=
  map (fun a => Z.of_N (N_of_ascii a)) (list_ascii_of_string s).

(** [str.isspace] of one character: the white space of the Unicode database
    (bidirectional type WS, B or S, or category Zs). [str.strip()] removes
    exactly these. *)
Definition isspace (c : Z) : bool :=
  ((9 <=? c) && (c <=? 13)) || ((28 <=? c) && (c <=? 32))
  || (c =? 133) || (c =? 160) || (c =? 5760)
  || ((8192 <=? c) && (c <=? 8202))
  || (c =? 8232) || (c =? 8233) || (c =? 8239) || (c =? 8287) || (c =? 12288).

Fixpoint lstrip (s : pystr) : pystr :=
  match s with
  | [] => []
  | c :: r => if isspace c then lstrip r else s
  end.

Definition rstrip (s : pystr) : pystr := rev (lstrip (rev s)).

(** [s.strip()] *)
Definition strip (s : pystr) : pystr := rstrip (lstrip s).

(** [s.split(sep)] for a separator of one character: never empty, the
    fields between the separators, empty fields included. *)
Fixpoint split (sep : Z) (s : pystr) : list pystr :=
  match s with
  | [] => [[]]
  | c :: r =>
      if c =? sep then [] :: split sep r
      else match split sep r with
           | f :: fs => (c :: f) :: fs
           | [] => [[c]]
           end
  end.

(** [s.replace(old, new)] for [old] of one character. *)
Fixpoint replace (old : Z) (new : pystr) (s : pystr) : pystr :=
  match s with
  | [] => []
  | c :: r => if c =? old then new ++ replace old new r else c :: replace old new r
  end.

(** Truth value of a string: non-empty. *)
Definition truthy (s : pystr) : bool :=
  match s with [] => false | _ => true end.

Definition NL : Z := 10.
Definition COMMA : Z := 44.
Definition SPACE : Z := 32.
Definition SLASH : Z := 47.
Definition DASH : Z := 45.
Definition DOT : Z := 46.

End Str.
Import Str.

(** ** [bytes.decode('utf-8')] *)

Module Utf8.

Inductive exn := UnicodeDecodeError.

Definition bz (b : byte) : Z := Z.of_N (Byte.to_N b).

Definition between (lo hi x : Z) : bool := (lo <=? x) && (x <=? hi).

(** Continuation byte 10xxxxxx. *)
Definition cont (x : Z) : bool := between 128 191 x.

(** Strict decoding: the shortest form only, no surrogates, nothing above
    U+10FFFF; a malformed or truncated sequence raises. *)
Fixpoint decode (bs : list byte) : option pystr :=
  match bs with
  | [] => Some []
  | b0 :: r0 =>
      let x0 := bz b0 in
      if x0 <? 128 then cons x0 <$> decode r0
      else if between 194 223 x0 then
        match r0 with
        | b1 :: r1 =>
            let x1 := bz b1 in
            if cont x1
            then cons ((x0 - 192) * 64 + (x1 - 128)) <$> decode r1
            else None
        | _ => None
        end
      else if between 224 239 x0 then
        match r0 with
        | b1 :: b2 :: r2 =>
            let x1 := bz b1 in
            let x2 := bz b2 in
            if between (if x0 =? 224 then 160 else 128)
                       (if x0 =? 237 then 159 else 191) x1 && cont x2
            then cons ((x0 - 224) * 4096 + (x1 - 128) * 64 + (x2 - 128))
                   <$> decode r2
            else None
        | _ => None
        end
      else if between 240 244 x0 then
        match r0 with
        | b1 :: b2 :: b3 :: r3 =>
            let x1 := bz b1 in
            let x2 := bz b2 in
            let x3 := bz b3 in
            if between (if x0 =? 240 then 144 else 128)
                       (if x0 =? 244 then 143 else 191) x1
               && cont x2 && cont x3
            then cons ((x0 - 240) * 262144 + (x1 - 128) * 4096
                       + (x2 - 128) * 64 + (x3 - 128))
                   <$> decode r3
            else None
        | _ => None
        end
      else None
  end.

(** The bytes of an ASCII literal. *)
Definition ascii_bytes (s : string) : list byte := list_byte_of_string s.

End Utf8.

(** ** The calendar arithmetic of CPython's [datetime] module *)

Module Datetime.

Definition MINYEAR : Z := 1.
Definition MAXYEAR : Z := 9999.

Record datetime := mk_datetime {
  year : Z; month : Z; day : Z;
  hour : Z; minute : Z; second : Z; microsecond : Z
}.

Record timedelta := mk_timedelta {
  days : Z; seconds : Z; microseconds : Z
}.

(** [_is_leap(year)] *)
Definition is_leap (y : Z) : bool :=
  (y mod 4 =? 0) && (negb (y mod 100 =? 0) || (y mod 400 =? 0)).

(** [_DAYS_IN_MONTH], indexed by the month, with its placeholder at 0. *)
Definition DAYS_IN_MONTH : list Z :=
  [-1; 31; 28; 31; 30; 31; 30; 31; 31; 30; 31; 30; 31].

(** [_DAYS_BEFORE_MONTH], the running sums of the table above. *)
Definition DAYS_BEFORE_MONTH : list Z :=
  [-1; 0; 31; 59; 90; 120; 151; 181; 212; 243; 273; 304; 334].

(** [_days_in_month(year, month)] *)
Definition days_in_month (y m : Z) : Z :=
  if (m =? 2) && is_leap y then 29 else nth (Z.to_nat m) DAYS_IN_MONTH (-1).

(** [_days_before_year(year)] *)
Definition days_before_year (y : Z) : Z :=
  let y' := y - 1 in y' * 365 + y' / 4 - y' / 100 + y' / 400.

(** [_days_before_month(year, month)] *)
Definition days_before_month (y m : Z) : Z :=
  nth (Z.to_nat m) DAYS_BEFORE_MONTH (-1)
  + (if (2 <? m) && is_leap y then 1 else 0).

(** [_ymd2ord(year, month, day)] *)
Definition ymd2ord (y m d : Z) : Z :=
  days_before_year y + days_before_month y m + d.

Definition toordinal (t : datetime) : Z := ymd2ord (year t) (month t) (day t).

(** [_check_date_fields]: the [ValueError] of the constructor is [false]. *)
Definition check_date_fields (y m d : Z) : bool :=
  (MINYEAR <=? y) && (y <=? MAXYEAR) && (1 <=? m) && (m <=? 12)
  && (1 <=? d) && (d <=? days_in_month y m).

(** [_check_time_fields] *)
Definition check_time_fields (hh mm ss us : Z) : bool :=
  (0 <=? hh) && (hh <=? 23) && (0 <=? mm) && (mm <=? 59)
  && (0 <=? ss) && (ss <=? 59) && (0 <=? us) && (us <=? 999999).

(** [datetime(year, month, day, hour, minute, second, microsecond)];
    [None] stands for the [ValueError] of a field out of range. *)
Definition new (y m d hh mm ss us : Z) : option datetime :=
  if check_date_fields y m d && check_time_fields hh mm ss us
  then Some (mk_datetime y m d hh mm ss us) else None.

(** The values a [datetime] object can hold, hence what [datetime.now()]
    can return. *)
Definition valid (t : datetime) : bool :=
  check_date_fields (year t) (month t) (day t)
  && check_time_fields (hour t) (minute t) (second t) (microsecond t).

(** [t.replace(year=y)] *)
Definition replace_year (t : datetime) (y : Z) : option datetime :=
  new y (month t) (day t) (hour t) (minute t) (second t) (microsecond t).

(** Comparison of tuples of integers, as [_cmp] on the seven fields. *)
Fixpoint tuple_lt (a b : list Z) : bool :=
  match a, b with
  | x :: a', y :: b' => (x <? y) || ((x =? y) && tuple_lt a' b')
  | [], _ :: _ => true
  | _, _ => false
  end.

Definition fields (t : datetime) : list Z :=
  [year t; month t; day t; hour t; minute t; second t; microsecond t].

(** [a < b] on naive datetimes *)
Definition lt (a b : datetime) : bool := tuple_lt (fields a) (fields b).

(** [timedelta(days, seconds, microseconds)] on integers: the carries of
    the constructor, with Python's floor [divmod]. *)
Definition timedelta_new (d s us : Z) : timedelta :=
  let s1 := s + us / 1000000 in
  mk_timedelta (d + s1 / 86400) (s1 mod 86400) (us mod 1000000).

(** [a - b] on naive datetimes *)
Definition sub (a b : datetime) : timedelta :=
  let secs1 := second a + minute a * 60 + hour a * 3600 in
  let secs2 := second b + minute b * 60 + hour b * 3600 in
  timedelta_new (toordinal a - toordinal b) (secs1 - secs2)
                (microsecond a - microsecond b).

(** A decimal digit as a character. *)
Definition digit (n : Z) : Z := 48 + n.

(** [%m] and [%d]: two digits, zero padded. *)
Definition pad2 (n : Z) : pystr := [digit (n / 10 mod 10); digit (n mod 10)].

(** [%Y]: the year with century, four digits as the library documents it
    (every year the program formats is the current year or the next). *)
Definition pad4 (n : Z) : pystr :=
  [digit (n / 1000 mod 10); digit (n / 100 mod 10);
   digit (n / 10 mod 10); digit (n mod 10)].

(** [t.strftime('%m/%d/%Y')] *)
Definition strftime_mdY (t : datetime) : pystr :=
  pad2 (month t) ++ [SLASH] ++ pad2 (day t) ++ [SLASH] ++ pad4 (year t).

End Datetime.

(** ** Messages shown to the user, and the functions that may show them *)

Inductive ui_message :=
| st_error_loading_file (e : Utf8.exn). (* st.error(f"Error loading file: {str(e)}") *)

(** A computation under Streamlit: its value and the messages it showed. *)
Definition App (A : Type) : Type := A * list ui_message.

Definition ret {A} (a : A) : App A := (a, []).

Definition bind {A B} (m : App A) (k : A -> App B) : App B :=
  let (a, l1) := m in let (b, l2) := k a in (b, l1 ++ l2).

Definition st_error (m : ui_message) : App unit := (tt, [m]).


(** ** The rows of the two data frames *)

Module Contact.
Record row := mk { Name : pystr; Address : pystr; Birthdate : pystr }.
End Contact.

Module Upcoming.
Record row := mk {
  Name : pystr; Address : pystr; Birthdate : pystr;
  Days_Until : Z; This_Year_Birthday : pystr
}.
End Upcoming.

(** ** [load_contacts_from_file] *)

(** The body of the [for line in lines] loop: the list [contacts] after the
    line. [parts[i]] is read only under [len(parts) >= 3]. *)
Definition load_line (contacts : list Contact.row) (line : pystr)
  : list Contact.row :=
  if truthy (strip line) then
    let parts := split COMMA line in
    if (3 <=? length parts)%nat then
      let name := strip (nth 0 parts []) in
      let address := strip (nth 1 parts []) in
      let birthdate := strip (nth 2 parts []) in
      contacts ++ [Contact.mk name address birthdate]
    else contacts
  else contacts.

Definition load_loop (lines : list pystr) (contacts : list Contact.row)
  : list Contact.row :=
  fold_left load_line lines contacts.

(** [uploaded_file] is the content that [uploaded_file.read()] returns. The
    only statement of the [try] block that can raise is the decoding; the
    handler shows the error and returns the empty frame. *)
Definition load_contacts_from_file (uploaded_file : list byte)
  : App (list Contact.row) :=
  match Utf8.decode uploaded_file with
  | Some content =>
      let lines := split NL (strip content) in
      ret (load_loop lines [])
  | None =>
      bind (st_error (st_error_loading_file Utf8.UnicodeDecodeError))
           (fun _ => ret [])
  end.

(** The parser as the specification words it: the lines of the text are
    what the line feeds separate; each line that is not blank and has at
    least three comma-separated fields gives one record of its first three
    fields, trimmed; every other line gives none. *)
Definition spec_line_record (line : pystr) : list Contact.row :=
  if truthy (strip line) then
    match split COMMA line with
    | f1 :: f2 :: f3 :: _ => [Contact.mk (strip f1) (strip f2) (strip f3)]
    | _ => []
    end
  else [].

Definition spec_contact_parser (text : pystr) : list Contact.row :=
  flat_map spec_line_record (split NL text).

(** ** [datetime.strptime(s, '%m/%d/%Y')] and [check_upcoming_birthdays] *)

Section Filter.

Import Datetime.

(** The decimal value that the Unicode database of the interpreter gives to
    a code point outside ASCII (category Nd), [None] for every other one.
    The regular expression class [\d] and [int()] both read it. *)
Variable unicode_decimal : Z -> option Z.

Definition digit_value (c : Z) : option Z :=
  if (48 <=? c) && (c <=? 57) then Some (c - 48)
  else if c <? 128 then None
  else match unicode_decimal c with
       | Some v => if (0 <=? v) && (v <=? 9) then Some v else None
       | None => None
       end.

(** A backtracking matcher: the ways to match a prefix, in the order the
    regular expression engine tries them, each with the text matched and
    the text left. *)
Definition matcher : Type := pystr -> list (pystr * pystr).

Definition one (p : Z -> bool) : matcher := fun s =>
  match s with
  | c :: r => if p c then [([c], r)] else []
  | [] => []
  end.

Definition cat (a b : matcher) : matcher := fun s =>
  flat_map (fun xr => map (fun yr => (fst xr ++ fst yr, snd yr)) (b (snd xr))) (a s).

Definition alt (a b : matcher) : matcher := fun s => a s ++ b s.

(** [[lo-hi]] on ASCII digits, given as digits *)
Definition rng (lo hi : Z) : matcher :=
  one (fun c => (48 + lo <=? c) && (c <=? 48 + hi)).

(** [\d] *)
Definition re_digit : matcher :=
  one (fun c => match digit_value c with Some _ => true | None => false end).

(** [%m]: [1[0-2]|0[1-9]|[1-9]] *)
Definition re_m : matcher :=
  alt (cat (rng 1 1) (rng 0 2)) (alt (cat (rng 0 0) (rng 1 9)) (rng 1 9)).

(** [%d]: [3[0-1]|[1-2]\d|0[1-9]|[1-9]| [1-9]] *)
Definition re_d : matcher :=
  alt (cat (rng 3 3) (rng 0 1))
 (alt (cat (rng 1 2) re_digit)
 (alt (cat (rng 0 0) (rng 1 9))
 (alt (rng 1 9)
      (cat (one (Z.eqb SPACE)) (rng 1 9))))).

(** [%Y]: [\d\d\d\d] *)
Definition re_Y : matcher := cat re_digit (cat re_digit (cat re_digit re_digit)).

Definition re_slash : matcher := one (Z.eqb SLASH).

(** The matches of [(?P<m>..)/(?P<d>..)/(?P<Y>..)] at the start of [s]:
    the three groups and the text after the match. *)
Definition re_mdY (s : pystr) : list (pystr * pystr * pystr * pystr) :=
  flat_map (fun m =>
    flat_map (fun s1 =>
      flat_map (fun d =>
        flat_map (fun s2 =>
          map (fun y => (fst m, fst d, fst y, snd y)) (re_Y (snd s2)))
          (re_slash (snd d)))
        (re_d (snd s1)))
      (re_slash (snd m)))
    (re_m s).

(** [int(s)] on the groups above: white space around is dropped, then every
    character must be a decimal digit. *)
Definition int_digits (s : pystr) : option Z :=
  fold_left (fun acc c =>
               match acc, digit_value c with
               | Some n, Some v => Some (10 * n + v)
               | _, _ => None
               end) s (Some 0).

Definition pyint (s : pystr) : option Z :=
  match strip s with
  | [] => None
  | t => int_digits t
  end.

(** [datetime.strptime(s, '%m/%d/%Y')]: [re.match] takes the first match;
    text left after it is "unconverted data"; the date must exist. [None]
    is the [ValueError]. *)
Definition strptime_mdY (s : pystr) : option datetime :=
  match re_mdY s with
  | (gm, gd, gY, []) :: _ =>
      match pyint gY, pyint gm, pyint gd with
      | Some y, Some m, Some d => new y m d 0 0 0 0
      | _, _, _ => None
      end
  | _ => None
  end.

(** [contact['Birthdate'].replace('-', '/').replace('.', '/')] *)
Definition normalize (birthdate : pystr) : pystr :=
  replace DOT [SLASH] (replace DASH [SLASH] birthdate).

(** The value of [this_year_birthday] after line 73, for a parsed
    [birth_date]; [None] when a [replace] raises. *)
Definition next_birthday (today birth_date : datetime) : option datetime :=
  match replace_year birth_date (year today) with
  | None => None
  | Some this_year_birthday =>
      if lt this_year_birthday today
      then replace_year birth_date (year today + 1)
      else Some this_year_birthday
  end.

(** [this_year_birthday] of a contact, [None] when the [try] block raises
    before line 75. *)
Definition occurrence (today : datetime) (contact : Contact.row)
  : option datetime :=
  match strptime_mdY (normalize (Contact.Birthdate contact)) with
  | None => None
  | Some birth_date => next_birthday today birth_date
  end.

(** [days_until] of a contact (line 75). *)
Definition days_until (today : datetime) (contact : Contact.row) : option Z :=
  match occurrence today contact with
  | None => None
  | Some this_year_birthday => Some (days (sub this_year_birthday today))
  end.

(** What one iteration of the loop does. *)
Inductive outcome :=
| Raised                       (* except: continue *)
| Outside                      (* the test of line 77 fails *)
| Append (r : Upcoming.row).   (* upcoming.append({...}) *)

Definition iteration (today : datetime) (days_ahead : Z) (contact : Contact.row)
  : outcome :=
  match occurrence today contact with
  | None => Raised
  | Some this_year_birthday =>
      let days_until := days (sub this_year_birthday today) in
      if (0 <=? days_until) && (days_until <=? days_ahead) then
        Append (Upcoming.mk (Contact.Name contact) (Contact.Address contact)
                  (Contact.Birthdate contact) days_until
                  (strftime_mdY this_year_birthday))
      else Outside
  end.

Definition upcoming_after (today : datetime) (days_ahead : Z)
  (upcoming : list Upcoming.row) (contact : Contact.row) : list Upcoming.row :=
  match iteration today days_ahead contact with
  | Append r => upcoming ++ [r]
  | _ => upcoming
  end.

(** [today] is the value [datetime.now()] returns at line 59. The function
    shows no message. *)
Definition check_upcoming_birthdays (today : datetime)
  (contacts_df : list Contact.row) (days_ahead : Z) : App (list Upcoming.row) :=
  match contacts_df with
  | [] => ret []
  | _ => ret (fold_left (upcoming_after today days_ahead) contacts_df [])
  end.

(** The same loop as a transition relation on (rows left, [upcoming]). *)
Inductive loop_step (today : datetime) (days_ahead : Z)
  : list Contact.row * list Upcoming.row
    -> list Contact.row * list Upcoming.row -> Prop :=
| step_append c rest upcoming r :
    iteration today days_ahead c = Append r ->
    loop_step today days_ahead (c :: rest, upcoming) (rest, upcoming ++ [r])
| step_outside c rest upcoming :
    iteration today days_ahead c = Outside ->
    loop_step today days_ahead (c :: rest, upcoming) (rest, upcoming)
| step_raised c rest upcoming :
    iteration today days_ahead c = Raised ->
    loop_step today days_ahead (c :: rest, upcoming) (rest, upcoming).

Inductive loop_steps (today : datetime) (days_ahead : Z)
  : list Contact.row * list Upcoming.row
    -> list Contact.row * list Upcoming.row -> Prop :=
| steps_done s : loop_steps today days_ahead s s
| steps_next s1 s2 s3 :
    loop_step today days_ahead s1 s2 ->
    loop_steps today days_ahead s2 s3 ->
    loop_steps today days_ahead s1 s3.

(** A complete run of the function and the frame it returns. *)
Inductive returns (today : datetime) (contacts_df : list Contact.row)
  (days_ahead : Z) : list Upcoming.row -> Prop :=
| returns_empty :
    contacts_df = [] -> returns today contacts_df days_ahead []
| returns_loop upcoming :
    contacts_df <> [] ->
    loop_steps today days_ahead (contacts_df, []) ([], upcoming) ->
    returns today contacts_df days_ahead upcoming.

(** The contact a row of the result was made from. *)
Definition contact_of (r : Upcoming.row) : Contact.row :=
  Contact.mk (Upcoming.Name r) (Upcoming.Address r) (Upcoming.Birthdate r).

(** [0 <= days_until <= days_ahead], false when no [days_until] is computed. *)
Definition in_window (today : datetime) (days_ahead : Z) (contact : Contact.row)
  : bool :=
  match days_until today contact with
  | Some d => (0 <=? d) && (d <=? days_ahead)
  | None => false
  end.

(** The rows one contact adds to [upcoming]. *)
Definition rows_of (today : datetime) (days_ahead : Z) (contact : Contact.row)
  : list Upcoming.row :=
  match iteration today days_ahead contact with
  | Append r => [r]
  | _ => []
  end.

End Filter.

(** ** [generate_usps_postage_link] *)

Definition base_url : pystr := py "https://cns.usps.com/mailpieces".

Definition generate_usps_postage_link (address : pystr) : pystr :=
  let encoded_address :=
    replace COMMA (py "%2C") (replace SPACE (py "%20") address) in
  base_url ++ py "?destination=" ++ encoded_address.

(** The escaping as the specification words it: every character on its own,
    a space to [%20], a comma to [%2C], any other character kept. *)
Definition spec_escape_char (c : Z) : pystr :=
  if c =? SPACE then py "%20"
  else if c =? COMMA then py "%2C"
  else [c].

Definition spec_escape (address : pystr) : pystr :=
  flat_map spec_escape_char address.

(** ** The template choice of [create_birthday_card] *)

Record template := mk_template { bg : pystr; text : pystr }.

(** The dict literal of lines 133-138, its entries inserted in order. *)
Definition templates : gmap pystr template :=
  <[py "Elegant" := mk_template (py "#F0F8FF") (py "#191970")]>
  (<[py "Fun" := mk_template (py "#FFB6C1") (py "#FF1493")]>
  (<[py "Modern" := mk_template (py "#E6E6FA") (py "#4B0082")]>
  (<[py "Classic" := mk_template (py "#FFE4E1") (py "#8B0000")]> ∅))).

(** [templates.get(card_type, templates["Classic"])]: the default is
    evaluated first, and a missing key there would be a [KeyError]
    ([None]). *)
Definition select_template (card_type : pystr) : option template :=
  match templates !! py "Classic" with
  | None => None
  | Some classic => Some (default classic (templates !! card_type))
  end.

(** ** The drawing of [create_birthday_card] *)

(** [s.split()]: the maximal runs of characters that are not white space.
    [cur] is the run being read. *)
Fixpoint words_from (s cur : pystr) : list pystr :=
  match s with
  | [] => match cur with [] => [] | _ => [cur] end
  | c :: r =>
      if isspace c
      then match cur with
           | [] => words_from r []
           | _ => cur :: words_from r []
           end
      else words_from r (cur ++ [c])
  end.

Definition split_ws (s : pystr) : list pystr := words_from s [].

(** [sep.join(l)] *)
Fixpoint join (sep : pystr) (l : list pystr) : pystr :=
  match l with
  | [] => []
  | [x] => x
  | x :: r => x ++ sep ++ join sep r
  end.

Inductive font := title_font | text_font.

(** One call [draw.text((x, y), txt, fill=fill, font=font)]. *)
Record draw_text := mk_draw_text {
  text_x : Z; text_y : Z; text_txt : pystr; text_fill : pystr; text_font_of : font
}.

(** The image returned: its size, its background and the texts drawn on
    it, in the order of the calls. *)
Record card := mk_card {
  card_width : Z; card_height : Z; card_bg : pystr; card_texts : list draw_text
}.

Section Card.

(** [bbox[2] - bbox[0]] of [draw.textbbox((0, 0), s, font=f)]: the width the
    imaging library measures for the text in the font that was loaded. *)
Variable textbbox_width : font -> pystr -> Z.

Definition width : Z := 400.
Definition height : Z := 300.

(** The body of [for word in words] (lines 167-177) on the pair
    ([lines], [current_line]). *)
Definition wrap_step (st : list pystr * list pystr) (word : pystr)
  : list pystr * list pystr :=
  let (lines, current_line) := st in
  let test_line := join [SPACE] (current_line ++ [word]) in
  let test_width := textbbox_width text_font test_line in
  if test_width <=? width - 40 then (lines, current_line ++ [word])
  else
    ((match current_line with
      | [] => lines
      | _ => lines ++ [join [SPACE] current_line]
      end),
     [word]).

(** [lines] after line 180. *)
Definition wrap_message (message : pystr) : list pystr :=
  let words := split_ws message in
  let (lines, current_line) := fold_left wrap_step words ([], []) in
  match current_line with
  | [] => lines
  | _ => lines ++ [join [SPACE] current_line]
  end.

(** The body of [for line in lines] (lines 183-188) on the texts drawn so
    far and [y_offset]. *)
Definition draw_line_step (fill : pystr) (st : list draw_text * Z) (line : pystr)
  : list draw_text * Z :=
  let (drawn, y_offset) := st in
  let line_width := textbbox_width text_font line in
  let line_x := (width - line_width) / 2 in
  (drawn ++ [mk_draw_text line_x y_offset line fill text_font], y_offset + 25).

(** [create_birthday_card]; [None] is the [KeyError] of the default of
    [templates.get]. *)
Definition create_birthday_card (card_type message recipient_name : pystr)
  : option card :=
  match select_template card_type with
  | None => None
  | Some template =>
      let title := py "Happy Birthday, " ++ recipient_name ++ py "!" in
      let title_width := textbbox_width title_font title in
      let title_x := (width - title_width) / 2 in
      let drawn := [mk_draw_text title_x 50 title (text template) title_font] in
      let lines := wrap_message message in
      let y_offset := 120 in
      Some (mk_card width height (bg template)
              (fst (fold_left (draw_line_step (text template)) lines
                      (drawn, y_offset))))
  end.

(** A line as the words it was joined from. *)
Definition fits (group : list pystr) : Prop :=
  textbbox_width text_font (join [SPACE] group) <= width - 40.

(** The words of a finished line: at least one, and within the width when
    they are two or more. *)
Definition good_group (group : list pystr) : Prop :=
  group <> [] /\ ((2 <= length group)%nat -> fits group).

(** The text drawn for the line of index [i] (from 0) of the message. *)
Definition line_text (fill : pystr) (i : nat) (line : pystr) : draw_text :=
  mk_draw_text ((width - textbbox_width text_font line) / 2)
    (120 + 25 * Z.of_nat i) line fill text_font.

End Card.

(** ** The mailing options of [main] (lines 349-357) *)

Inductive mailing :=
| NotShown                                     (* [if selected_contact:] fails *)
| IndexError                                   (* [.iloc[0]] on no row *)
| Shown (address : pystr) (postage_link : pystr).

(** [contacts[contacts['Name'] == selected_contact]] *)
Definition rows_named (contacts : list Contact.row) (selected_contact : pystr)
  : list Contact.row :=
  List.filter (fun r => bool_decide (Contact.Name r = selected_contact)) contacts.

(** What the tab writes for the recipient that the select box returned. *)
Definition mailing_options (contacts : list Contact.row) (selected_contact : pystr)
  : mailing :=
  if truthy selected_contact then
    match rows_named contacts selected_contact with
    | contact_info :: _ =>
        Shown (Contact.Address contact_info)
              (generate_usps_postage_link (Contact.Address contact_info))
    | [] => IndexError
    end
  else NotShown.

(** ** Predicates of the properties *)

(** A field with no white space at either end, no comma and no line feed. *)
Definition clean_field (s : pystr) : Prop :=
  strip s = s /\ ~ In COMMA s /\ ~ In NL s.

Definition clean_row (r : Contact.row) : Prop :=
  clean_field (Contact.Name r) /\ clean_field (Contact.Address r)
  /\ clean_field (Contact.Birthdate r).

(** Every match of a matcher is a prefix of the text, of a length between
    [lo] and [hi]. *)
Definition matches_within (m : matcher) (lo hi : nat) : Prop :=
  forall s x r, In (x, r) (m s) ->
                s = x ++ r /\ (lo <= length x <= hi)%nat.

(** The time of day of a clock reading is 00:00:00.000000. *)
Definition at_midnight (t : Datetime.datetime) : bool :=
  Datetime.hour t + Datetime.minute t + Datetime.second t
  + Datetime.microsecond t =? 0.

(** ** Sample inputs *)

(** An interpreter whose database has no decimal digit outside ASCII. *)
Definition ascii_digits_only : Z -> option Z := fun _ => None.

Definition jane_file : list byte :=
  Utf8.ascii_bytes "Jane Smith, 1 Oak Ave, 07/22/1985".

Definition alex_file : list byte :=
  Utf8.ascii_bytes "Alex Doe, 5 Elm St, 07/20/1985".

Definition jane : Contact.row :=
  Contact.mk (py "Jane Smith") (py "1 Oak Ave") (py "07/22/1985").

Definition alex : Contact.row :=
  Contact.mk (py "Alex Doe") (py "5 Elm St") (py "07/20/1985").

(** 20 July 2024 at 00:00:00.000000 and at 10:15:30.250000. *)
Definition midnight_2024_07_20 : Datetime.datetime :=
  Datetime.mk_datetime 2024 7 20 0 0 0 0.

Definition morning_2024_07_20 : Datetime.datetime :=
  Datetime.mk_datetime 2024 7 20 10 15 30 250000.

(** A file of five lines: two contacts, a blank line, a line of two fields,
    and a line of four fields whose third is no date. *)
Definition sample_text : string :=
  "Jane Smith, 1 Oak Ave, 07/22/1985" ++ String (ascii_of_nat 10) ""
  ++ String (ascii_of_nat 10) ""
  ++ "Bob Ray, no birthdate" ++ String (ascii_of_nat 10) ""
  ++ "John Doe, 123 Main St, Anytown ST 12345, 03/15/1990"
  ++ String (ascii_of_nat 10) ""
  ++ "Kim Lee, 9 Ash Ct, 07/28/1990" ++ String (ascii_of_nat 10) "".

Definition sample_file : list byte := Utf8.ascii_bytes sample_text.

Definition john : Contact.row :=
  Contact.mk (py "John Doe") (py "123 Main St") (py "Anytown ST 12345").

Definition kim : Contact.row :=
  Contact.mk (py "Kim Lee") (py "9 Ash Ct") (py "07/28/1990").

Definition lou : Contact.row :=
  Contact.mk (py "Lou Poe") (py "3 Fir Ln") (py "07/29/1990").

(** A first line that is a contact, then a byte that is not UTF-8. *)
Definition broken_file : list byte :=
  Utf8.ascii_bytes ("Jane Smith, 1 Oak Ave, 07/22/1985" ++ String (ascii_of_nat 10) "")
  ++ [xff].

(** A file of white space only. *)
Definition blank_file : list byte := [x20; x0a; x09; x0d; x0a].

(** 1 March 2023, a year that is not a leap year, at 12:00:00. *)
Definition noon_2023_03_01 : Datetime.datetime :=
  Datetime.mk_datetime 2023 3 1 12 0 0 0.

Definition leo : Contact.row :=
  Contact.mk (py "Leo Day") (py "4 Yew Rd") (py "02/29/2000").

(** [jane] again, at another address. *)
Definition jane_moved : Contact.row :=
  Contact.mk (py "Jane Smith") (py "8 Elm St") (py "07/22/1985").


(** * Properties *)

(** ** Text *)

Lemma isspace_not_comma c : isspace c = true -> (c =? COMMA) = false.
Proof.
  intros H. apply Z.eqb_neq. intros ->. discriminate H.
Qed.

Lemma split_nonempty sep t : exists f fs, split sep t = f :: fs.
Proof.
  destruct t as [|x t]; simpl; [eauto|].
  destruct (x =? sep); [eauto|].
  destruct (split sep t); eauto.
Qed.

Lemma split_cons_other sep c t :
  (c =? sep) = false ->
  exists f fs, split sep t = f :: fs /\ split sep (c :: t) = (c :: f) :: fs.
Proof.
  intros Hc. simpl. rewrite Hc.
  destruct (split_nonempty sep t) as (f & fs & E). rewrite E. eauto.
Qed.

Lemma split_snoc_sep sep t : split sep (t ++ [sep]) = split sep t ++ [[]].
Proof.
  induction t as [|x t IH]; simpl.
  - rewrite Z.eqb_refl. reflexivity.
  - destruct (x =? sep); rewrite IH; [reflexivity|].
    destruct (split_nonempty sep t) as (f & fs & E). rewrite E. reflexivity.
Qed.

Lemma split_snoc_other sep t c :
  (c =? sep) = false ->
  exists init l, split sep t = init ++ [l]
                 /\ split sep (t ++ [c]) = init ++ [l ++ [c]].
Proof.
  intros Hc. induction t as [|x t (init & l & E1 & E2)]; simpl.
  - rewrite Hc. exists [], []. split; reflexivity.
  - rewrite E1, E2. destruct (x =? sep).
    + exists ([] :: init), l. split; reflexivity.
    + destruct init as [|i0 ir]; simpl.
      * exists [], (x :: l). split; reflexivity.
      * exists ((x :: i0) :: ir), l. split; reflexivity.
Qed.

Lemma strip_cons_space c s : isspace c = true -> strip (c :: s) = strip s.
Proof. intros H. unfold strip. simpl. rewrite H. reflexivity. Qed.

Lemma lstrip_snoc_space c s :
  isspace c = true ->
  lstrip (s ++ [c]) = match lstrip s with [] => [] | _ => lstrip s ++ [c] end.
Proof.
  intros H. induction s as [|x s IH]; simpl.
  - rewrite H. reflexivity.
  - destruct (isspace x); [exact IH | reflexivity].
Qed.

Lemma strip_snoc_space c s : isspace c = true -> strip (s ++ [c]) = strip s.
Proof.
  intros H. unfold strip. rewrite (lstrip_snoc_space c s H).
  destruct (lstrip s) as [|y r] eqn:E; [reflexivity|].
  unfold rstrip. rewrite rev_unit. simpl lstrip at 1. rewrite H. reflexivity.
Qed.

Lemma replace_app old new a b :
  replace old new (a ++ b) = replace old new a ++ replace old new b.
Proof.
  induction a as [|x a IH]; simpl; [reflexivity|].
  destruct (x =? old); rewrite IH; [rewrite app_assoc|]; reflexivity.
Qed.

(** ** The contact parser *)

Lemma load_line_spec contacts line :
  load_line contacts line = contacts ++ spec_line_record line.
Proof.
  unfold load_line, spec_line_record.
  destruct (truthy (strip line)); [|symmetry; apply app_nil_r].
  destruct (split COMMA line) as [|f1 [|f2 [|f3 more]]]; simpl;
    try (symmetry; apply app_nil_r); reflexivity.
Qed.

Lemma load_loop_spec lines contacts :
  load_loop lines contacts = contacts ++ flat_map spec_line_record lines.
Proof.
  unfold load_loop. revert contacts.
  induction lines as [|l lines IH]; intros contacts; simpl.
  - symmetry; apply app_nil_r.
  - rewrite IH, load_line_spec, <- app_assoc. reflexivity.
Qed.

Lemma spec_line_record_cons_space c line :
  isspace c = true -> spec_line_record (c :: line) = spec_line_record line.
Proof.
  intros H. unfold spec_line_record. rewrite (strip_cons_space c line H).
  destruct (split_cons_other COMMA c line (isspace_not_comma c H))
    as (f & fs & E1 & E2).
  rewrite E1, E2, (strip_cons_space c f H). reflexivity.
Qed.

Lemma spec_line_record_snoc_space c line :
  isspace c = true -> spec_line_record (line ++ [c]) = spec_line_record line.
Proof.
  intros H. unfold spec_line_record. rewrite (strip_snoc_space c line H).
  destruct (split_snoc_other COMMA line c (isspace_not_comma c H))
    as (init & l & E1 & E2).
  rewrite E1, E2.
  destruct init as [|a [|b [|d r]]]; simpl;
    rewrite ?(strip_snoc_space c l H); reflexivity.
Qed.

Lemma parser_cons_space c text :
  isspace c = true ->
  spec_contact_parser (c :: text) = spec_contact_parser text.
Proof.
  intros H. unfold spec_contact_parser.
  destruct (c =? NL) eqn:E.
  - simpl. rewrite E. reflexivity.
  - destruct (split_cons_other NL c text E) as (f & fs & E1 & E2).
    rewrite E1, E2. simpl. rewrite (spec_line_record_cons_space c f H).
    reflexivity.
Qed.

Lemma parser_snoc_space c text :
  isspace c = true ->
  spec_contact_parser (text ++ [c]) = spec_contact_parser text.
Proof.
  intros H. unfold spec_contact_parser.
  destruct (c =? NL) eqn:E.
  - apply Z.eqb_eq in E. subst c. rewrite split_snoc_sep, flat_map_app.
    simpl. apply app_nil_r.
  - destruct (split_snoc_other NL text c E) as (init & l & E1 & E2).
    rewrite E1, E2, !flat_map_app. simpl.
    rewrite (spec_line_record_snoc_space c l H). reflexivity.
Qed.

Lemma parser_lstrip text :
  spec_contact_parser (lstrip text) = spec_contact_parser text.
Proof.
  induction text as [|c text IH]; simpl; [reflexivity|].
  destruct (isspace c) eqn:E; [|reflexivity].
  rewrite IH. symmetry. apply parser_cons_space, E.
Qed.

Lemma parser_rstrip text :
  spec_contact_parser (rstrip text) = spec_contact_parser text.
Proof.
  unfold rstrip. rewrite <- (rev_involutive text) at 2.
  induction (rev text) as [|c u IH]; simpl; [reflexivity|].
  destruct (isspace c) eqn:E; [|reflexivity].
  rewrite IH. symmetry. apply parser_snoc_space, E.
Qed.

Lemma parser_strip text :
  spec_contact_parser (strip text) = spec_contact_parser text.
Proof. unfold strip. rewrite parser_rstrip. apply parser_lstrip. Qed.

Lemma load_decoded uploaded_file text :
  Utf8.decode uploaded_file = Some text ->
  load_contacts_from_file uploaded_file = (spec_contact_parser text, []).
Proof.
  intros H. unfold load_contacts_from_file. rewrite H. unfold ret.
  rewrite load_loop_spec. simpl.
  change (flat_map spec_line_record (split NL (strip text)))
    with (spec_contact_parser (strip text)).
  rewrite parser_strip. reflexivity.
Qed.

(** C3. For every text that the upload decodes to, the parser returns, in
    the order of the lines, one record for each line that is not blank and
    has at least three comma-separated fields, made of the first three
    fields trimmed and nothing of the later ones; every other line gives no
    record, and no message is shown. *)
Theorem load_contacts_is_line_parser uploaded_file text :
  Utf8.decode uploaded_file = Some text ->
  load_contacts_from_file uploaded_file
  = (flat_map spec_line_record (split NL text), []).
Proof. exact (load_decoded uploaded_file text). Qed.

(** C7. When the upload is not UTF-8 text, the parser shows one error and
    returns the empty frame: no row of a line before the bad byte is kept. *)
Theorem load_contacts_undecodable uploaded_file :
  Utf8.decode uploaded_file = None ->
  load_contacts_from_file uploaded_file
  = ([], [st_error_loading_file Utf8.UnicodeDecodeError]).
Proof.
  intros H. unfold load_contacts_from_file. rewrite H. reflexivity.
Qed.

(** ** The birthday window filter *)

Section FilterProperties.

Import Datetime.
Variable nd : Z -> option Z.

Lemma upcoming_after_rows today H upcoming c :
  upcoming_after nd today H upcoming c = upcoming ++ rows_of nd today H c.
Proof.
  unfold upcoming_after, rows_of.
  destruct (iteration nd today H c); rewrite ?app_nil_r; reflexivity.
Qed.

Lemma fold_upcoming today H contacts upcoming :
  fold_left (upcoming_after nd today H) contacts upcoming
  = upcoming ++ flat_map (rows_of nd today H) contacts.
Proof.
  revert upcoming. induction contacts as [|c contacts IH]; intros upcoming; simpl.
  - rewrite app_nil_r. reflexivity.
  - rewrite IH, upcoming_after_rows, <- app_assoc. reflexivity.
Qed.

Lemma check_flat_map today contacts H :
  check_upcoming_birthdays nd today contacts H
  = (flat_map (rows_of nd today H) contacts, []).
Proof.
  unfold check_upcoming_birthdays, ret.
  destruct contacts as [|c contacts]; [reflexivity|].
  rewrite fold_upcoming. reflexivity.
Qed.

Lemma rows_of_window today H c :
  map contact_of (rows_of nd today H c)
  = if in_window nd today H c then [c] else [].
Proof.
  unfold rows_of, in_window, iteration, days_until.
  destruct (occurrence nd today c) as [t|]; [|reflexivity].
  destruct ((0 <=? days (sub t today)) && (days (sub t today) <=? H));
    [|reflexivity].
  destruct c; reflexivity.
Qed.

Lemma rows_of_days today H c :
  Forall (fun r => days_until nd today (contact_of r)
                   = Some (Upcoming.Days_Until r)) (rows_of nd today H c).
Proof.
  unfold rows_of, iteration, days_until.
  destruct (occurrence nd today c) as [t|] eqn:E; [|constructor].
  destruct ((0 <=? days (sub t today)) && (days (sub t today) <=? H));
    [|constructor].
  constructor; [|constructor]. destruct c; simpl in *.
  unfold contact_of; simpl. rewrite E. reflexivity.
Qed.

Lemma kept_contacts today H contacts :
  map contact_of (flat_map (rows_of nd today H) contacts)
  = List.filter (in_window nd today H) contacts.
Proof.
  induction contacts as [|c contacts IH]; simpl; [reflexivity|].
  rewrite map_app, IH, rows_of_window.
  destruct (in_window nd today H c); reflexivity.
Qed.

(** X21. The rows of the result are made from exactly the contacts whose
    [days_until] (the number the code computes at line 75) lies in [0 .. days_ahead], in the order of the input, each
    with that number of days; a contact at [days_ahead] days is in, one at
    [days_ahead + 1] days is out. *)
Theorem window_filter_exact today contacts H :
  let out := fst (check_upcoming_birthdays nd today contacts H) in
  map contact_of out = List.filter (in_window nd today H) contacts
  /\ Forall (fun r => days_until nd today (contact_of r)
                      = Some (Upcoming.Days_Until r)
                      /\ 0 <= Upcoming.Days_Until r <= H) out
  /\ (forall c, In c contacts -> 0 <= H ->
                days_until nd today c = Some H -> In c (map contact_of out))
  /\ (forall c, days_until nd today c = Some (H + 1) ->
                ~ In c (map contact_of out)).
Proof.
  rewrite check_flat_map. cbv zeta. simpl fst.
  rewrite kept_contacts. repeat split.
  - apply List.Forall_forall. intros r Hr.
    apply in_flat_map in Hr. destruct Hr as (c & _ & Hr).
    pose proof (rows_of_days today H c) as HF.
    rewrite List.Forall_forall in HF. specialize (HF r Hr).
    split; [exact HF|].
    assert (Hc : In (contact_of r) (map contact_of (rows_of nd today H c)))
      by (apply in_map, Hr).
    rewrite rows_of_window in Hc.
    destruct (in_window nd today H c) eqn:W; [|destruct Hc].
    destruct Hc as [Hc|[]]. unfold in_window in W. rewrite Hc, HF in W. lia.
  - intros c Hc H0 Hd. apply List.filter_In. split; [exact Hc|].
    unfold in_window. rewrite Hd. lia.
  - intros c Hd Hc. apply List.filter_In in Hc. destruct Hc as [_ W].
    unfold in_window in W. rewrite Hd in W. lia.
Qed.

Lemma loop_steps_fold today H s s' :
  loop_steps nd today H s s' ->
  fst s' = [] ->
  snd s' = fold_left (upcoming_after nd today H) (fst s) (snd s).
Proof.
  induction 1 as [s|s1 s2 s3 Hstep _ IH]; intros Hend.
  - rewrite Hend. reflexivity.
  - rewrite (IH Hend).
    destruct Hstep as [c rest up r E|c rest up E|c rest up E]; simpl;
      unfold upcoming_after; rewrite E; reflexivity.
Qed.

Lemma fold_loop_steps today H contacts upcoming :
  loop_steps nd today H (contacts, upcoming)
    ([], fold_left (upcoming_after nd today H) contacts upcoming).
Proof.
  revert upcoming. induction contacts as [|c contacts IH]; intros upcoming; simpl.
  - constructor.
  - eapply steps_next; [|apply IH].
    unfold upcoming_after.
    destruct (iteration nd today H c) eqn:E; constructor; exact E.
Qed.

Lemma check_returns today contacts H :
  returns nd today contacts H (fst (check_upcoming_birthdays nd today contacts H)).
Proof.
  destruct contacts as [|c contacts].
  - apply returns_empty. reflexivity.
  - apply returns_loop; [discriminate|]. apply fold_loop_steps.
Qed.

Lemma returns_check today contacts H out :
  returns nd today contacts H out ->
  out = fst (check_upcoming_birthdays nd today contacts H).
Proof.
  intros [->|up Hne Hsteps]; [reflexivity|].
  apply loop_steps_fold in Hsteps; [|reflexivity]. simpl in Hsteps.
  destruct contacts; [contradiction|]. exact Hsteps.
Qed.

Lemma rows_of_unparseable today H c :
  strptime_mdY nd (normalize (Contact.Birthdate c)) = None ->
  rows_of nd today H c = [].
Proof.
  intros E. unfold rows_of, iteration, occurrence. rewrite E. reflexivity.
Qed.

(** C6. A line whose third field is not a month/day/year date still gives a
    row of the contact frame, with no message; the filter leaves that row
    out of its result, as if it were not in the frame, and shows nothing. *)
Theorem unparseable_kept_then_dropped :
  (forall uploaded_file text line f1 f2 f3 more,
      Utf8.decode uploaded_file = Some text ->
      In line (split NL text) ->
      truthy (strip line) = true ->
      split COMMA line = f1 :: f2 :: f3 :: more ->
      strptime_mdY nd (normalize (strip f3)) = None ->
      In (Contact.mk (strip f1) (strip f2) (strip f3))
         (fst (load_contacts_from_file uploaded_file))
      /\ snd (load_contacts_from_file uploaded_file) = [])
  /\ (forall today H before c after,
      strptime_mdY nd (normalize (Contact.Birthdate c)) = None ->
      iteration nd today H c = Raised
      /\ check_upcoming_birthdays nd today (before ++ c :: after) H
         = check_upcoming_birthdays nd today (before ++ after) H
      /\ snd (check_upcoming_birthdays nd today (before ++ c :: after) H) = []).
Proof.
  split.
  - intros uploaded_file text line f1 f2 f3 more Hd Hl Hb Hs _.
    rewrite (load_decoded _ _ Hd). split; [|reflexivity].
    simpl. unfold spec_contact_parser. apply in_flat_map.
    exists line. split; [exact Hl|].
    unfold spec_line_record. rewrite Hb, Hs. left. reflexivity.
  - intros today H before c after E. split; [|split].
    + unfold iteration, occurrence. rewrite E. reflexivity.
    + rewrite !check_flat_map, !flat_map_app. simpl.
      rewrite (rows_of_unparseable today H c E). reflexivity.
    + rewrite check_flat_map. reflexivity.
Qed.

End FilterProperties.

(** ** The postage link *)

Lemma py_percent_20 : py "%20" = [37; 50; 48].
Proof. reflexivity. Qed.

Lemma py_percent_2C : py "%2C" = [37; 50; 67].
Proof. reflexivity. Qed.

Lemma escape_pointwise address :
  replace COMMA (py "%2C") (replace SPACE (py "%20") address)
  = spec_escape address.
Proof.
  unfold spec_escape, spec_escape_char. rewrite py_percent_20, py_percent_2C.
  induction address as [|c address IH]; [reflexivity|].
  cbn [replace flat_map]. destruct (c =? SPACE) eqn:E1.
  - rewrite replace_app, IH. reflexivity.
  - cbn [replace]. rewrite IH. destruct (c =? COMMA); reflexivity.
Qed.

(** C9. The link is the fixed base URL, then [?destination=], then the
    address in which every space has become [%20] and every comma [%2C],
    every other character being kept as it is; the address is not checked. *)
Theorem postage_link_escapes address :
  generate_usps_postage_link address
  = py "https://cns.usps.com/mailpieces" ++ py "?destination="
    ++ flat_map spec_escape_char address.
Proof.
  unfold generate_usps_postage_link. rewrite escape_pointwise. reflexivity.
Qed.

(** ** The card preset *)

Lemma templates_classic :
  templates !! py "Classic" = Some (mk_template (py "#FFE4E1") (py "#8B0000")).
Proof.
  unfold templates.
  rewrite !lookup_insert_ne by (vm_compute; discriminate).
  apply lookup_insert_eq.
Qed.




(** ** The next occurrence of a birthday *)

Section Occurrence.

Import Datetime.
Variable nd : Z -> option Z.

Lemma replace_year_some t y t' :
  replace_year t y = Some t' ->
  t' = mk_datetime y (month t) (day t) (hour t) (minute t) (second t)
         (microsecond t)
  /\ check_date_fields y (month t) (day t) = true.
Proof.
  unfold replace_year, new.
  destruct (check_date_fields y (month t) (day t)); simpl; [|discriminate].
  destruct (check_time_fields _ _ _ _); [|discriminate].
  intros [= <-]. split; reflexivity.
Qed.

End Occurrence.

(** ** A birthday on today's month and day *)

Section BirthdayToday.

Import Datetime.
Variable nd : Z -> option Z.

Lemma strptime_midnight s b :
  strptime_mdY nd s = Some b ->
  b = mk_datetime (year b) (month b) (day b) 0 0 0 0
  /\ check_date_fields (year b) (month b) (day b) = true.
Proof.
  unfold strptime_mdY.
  destruct (re_mdY nd s) as [|[[[gm gd] gY] [|x rest]] ms]; try discriminate.
  destruct (pyint nd gY) as [y|]; [|discriminate].
  destruct (pyint nd gm) as [m|]; [|discriminate].
  destruct (pyint nd gd) as [d|]; [|discriminate].
  unfold new. destruct (check_date_fields y m d) eqn:E; [|discriminate].
  simpl. intros [= <-]. split; [reflexivity | exact E].
Qed.

Lemma year_step y m d :
  365 <= ymd2ord (y + 1) m d - ymd2ord y m d <= 366.
Proof.
  unfold ymd2ord, days_before_year, days_before_month, is_leap.
  replace (y + 1 - 1) with y by lia.
  generalize (nth (Z.to_nat m) DAYS_BEFORE_MONTH (-1)). intros k. cbv zeta.
  destruct (2 <? m); cbn [andb];
    repeat match goal with
           | |- context [?a =? ?b] =>
               destruct (Z.eqb_spec a b); cbn [andb orb negb]
           end;
    Z.to_euclidean_division_equations; lia.
Qed.

Lemma valid_fields t :
  valid t = true ->
  check_date_fields (year t) (month t) (day t) = true
  /\ 0 <= hour t <= 23 /\ 0 <= minute t <= 59 /\ 0 <= second t <= 59
  /\ 0 <= microsecond t <= 999999.
Proof.
  unfold valid, check_time_fields. intros H.
  apply andb_true_iff in H. destruct H as [Hd Ht].
  split; [exact Hd | lia].
Qed.

(** After midnight, a birthday on today's month and day is counted from
    next year's occurrence: at least 364 days. *)
Lemma same_day_after_midnight today c b d :
  valid today = true ->
  strptime_mdY nd (normalize (Contact.Birthdate c)) = Some b ->
  month b = month today -> day b = day today ->
  0 < hour today + minute today + second today + microsecond today ->
  days_until nd today c = Some d ->
  364 <= d.
Proof.
  intros Hv Eb Hm Hd Htime.
  destruct (valid_fields today Hv) as (_ & Hh & Hmi & Hs & Hus).
  destruct (strptime_midnight _ _ Eb) as [Hb _].
  unfold days_until, occurrence. rewrite Eb. unfold next_birthday.
  destruct (replace_year b (year today)) as [ty|] eqn:Ety; [|discriminate].
  apply replace_year_some in Ety. destruct Ety as [Hty _].
  rewrite Hb in Hty. simpl in Hty.
  assert (Elt : lt ty today = true).
  { rewrite Hty, Hm, Hd. unfold lt, fields.
    cbn [tuple_lt year month day hour minute second microsecond].
    rewrite !Z.ltb_irrefl, !Z.eqb_refl. cbn [andb orb].
    repeat match goal with
           | |- context [?a <? ?b] => destruct (Z.ltb_spec a b); cbn [andb orb]
           | |- context [?a =? ?b] => destruct (Z.eqb_spec a b); cbn [andb orb]
           end; try reflexivity; lia. }
  rewrite Elt.
  destruct (replace_year b (year today + 1)) as [occ|] eqn:Eocc; [|discriminate].
  apply replace_year_some in Eocc. destruct Eocc as [Hocc _].
  rewrite Hb in Hocc. simpl in Hocc.
  intros [= <-]. rewrite Hocc, Hm, Hd.
  unfold sub, timedelta_new, toordinal. simpl.
  pose proof (year_step (year today) (month today) (day today)).
  Z.to_euclidean_division_equations; lia.
Qed.

(** At midnight exactly, the same birthday is 0 days away. *)
Lemma same_day_at_midnight today c b :
  valid today = true ->
  strptime_mdY nd (normalize (Contact.Birthdate c)) = Some b ->
  month b = month today -> day b = day today ->
  hour today = 0 -> minute today = 0 -> second today = 0 ->
  microsecond today = 0 ->
  days_until nd today c = Some 0.
Proof.
  intros Hv Eb Hm Hd Hh Hmi Hs Hus.
  destruct (valid_fields today Hv) as (Hdate & _).
  destruct (strptime_midnight _ _ Eb) as [Hb _].
  unfold days_until, occurrence. rewrite Eb. clear Eb.
  destruct today as [y m d' h mi s us].
  cbn [year month day hour minute second microsecond] in *. subst h mi s us.
  unfold next_birthday, replace_year, new. rewrite Hb.
  cbn [year month day hour minute second microsecond].
  rewrite Hm, Hd, Hdate.
  change (check_time_fields 0 0 0 0) with true. cbn [andb].
  unfold lt, fields.
  cbn [tuple_lt year month day hour minute second microsecond].
  rewrite !Z.ltb_irrefl, !Z.eqb_refl. cbn [andb orb].
  unfold sub, timedelta_new, toordinal.
  cbn [year month day hour minute second microsecond days].
  rewrite Z.sub_diag. reflexivity.
Qed.

(** X19. Hence the record is kept at midnight for every horizon from 0 on, and
    left out after midnight for every horizon the slider offers. *)
Lemma same_day_window today c b H :
  valid today = true ->
  strptime_mdY nd (normalize (Contact.Birthdate c)) = Some b ->
  month b = month today -> day b = day today ->
  (hour today + minute today + second today + microsecond today = 0 ->
   0 <= H -> in_window nd today H c = true)
  /\ (0 < hour today + minute today + second today + microsecond today ->
      H < 364 -> in_window nd today H c = false).
Proof.
  intros Hv Eb Hm Hd.
  destruct (valid_fields today Hv) as (_ & Hh & Hmi & Hs & Hus).
  split.
  - intros Hz HH. unfold in_window.
    rewrite (same_day_at_midnight today c b Hv Eb Hm Hd) by lia.
    apply andb_true_iff. split; apply Z.leb_le; lia.
  - intros Hpos HH. unfold in_window.
    destruct (days_until nd today c) as [d|] eqn:E; [|reflexivity].
    pose proof (same_day_after_midnight today c b d Hv Eb Hm Hd Hpos E).
    apply andb_false_iff. right. apply Z.leb_gt. lia.
Qed.

(** Jane's birthday of 22 July, read at any time of 20 July 2024: 2 days at
    00:00:00.000000, 1 day at every later time. *)
Lemma jane_days_on_2024_07_20 hh mm ss us :
  check_time_fields hh mm ss us = true ->
  days_until nd (mk_datetime 2024 7 20 hh mm ss us) jane
  = Some (if hh + mm + ss + us =? 0 then 2 else 1).
Proof.
  intros Ht. unfold check_time_fields in Ht.
  assert (Hr : 0 <= hh <= 23 /\ 0 <= mm <= 59 /\ 0 <= ss <= 59
               /\ 0 <= us <= 999999) by lia.
  clear Ht. unfold days_until, occurrence.
  assert (Eb : strptime_mdY nd (normalize (Contact.Birthdate jane))
               = Some (mk_datetime 1985 7 22 0 0 0 0)) by (vm_compute; reflexivity).
  rewrite Eb. unfold next_birthday.
  cbn [year month day hour minute second microsecond].
  assert (Ety : replace_year (mk_datetime 1985 7 22 0 0 0 0) 2024
                = Some (mk_datetime 2024 7 22 0 0 0 0)) by reflexivity.
  assert (Elt : lt (mk_datetime 2024 7 22 0 0 0 0)
                  (mk_datetime 2024 7 20 hh mm ss us) = false) by reflexivity.
  rewrite Ety, Elt. unfold sub, timedelta_new, toordinal. cbv zeta.
  cbn [year month day hour minute second microsecond days].
  assert (E : ymd2ord 2024 7 22 - ymd2ord 2024 7 20 = 2) by reflexivity.
  rewrite E. f_equal.
  destruct (Z.eqb_spec (hh + mm + ss + us) 0);
    Z.to_euclidean_division_equations; lia.
Qed.

(** C1, at a clock reading the program can get. The birthday 07/20 read on
    20 July 2024 at 10:15:30.25: the occurrence taken is the one of 2025,
    364 days away, and the record is left out with a horizon of 7 days. At
    00:00:00 of the same day the record is kept with 0 days. *)
Theorem birthday_today_is_missed :
  fst (load_contacts_from_file alex_file) = [alex]
  /\ occurrence nd morning_2024_07_20 alex = Some (mk_datetime 2025 7 20 0 0 0 0)
  /\ days_until nd morning_2024_07_20 alex = Some 364
  /\ check_upcoming_birthdays nd morning_2024_07_20 [alex] 7 = ([], [])
  /\ check_upcoming_birthdays nd midnight_2024_07_20 [alex] 7
     = ([Upcoming.mk (py "Alex Doe") (py "5 Elm St") (py "07/20/1985") 0
           (py "07/20/2024")], []).
Proof. repeat split; vm_compute; reflexivity. Qed.

(** C2, at a clock reading the program can get. Jane's line read on 20 July
    2024 at 10:15:30.25 with a horizon of 7 days: Jane is in the result with
    the occurrence 07/22/2024, and with 1 day, not 2. At 00:00:00 of the
    same day the count is 2. *)
Theorem jane_example_counts_one_day :
  fst (load_contacts_from_file jane_file) = [jane]
  /\ check_upcoming_birthdays nd morning_2024_07_20 [jane] 7
     = ([Upcoming.mk (py "Jane Smith") (py "1 Oak Ave") (py "07/22/1985") 1
           (py "07/22/2024")], [])
  /\ check_upcoming_birthdays nd midnight_2024_07_20 [jane] 7
     = ([Upcoming.mk (py "Jane Smith") (py "1 Oak Ave") (py "07/22/1985") 2
           (py "07/22/2024")], []).
Proof. repeat split; vm_compute; reflexivity. Qed.

(** C4, at a clock reading the program can get. On 20 July 2024 at
    10:15:30.25 with a horizon of 7 days: Kim's birthday of 28 July is 8
    calendar days away, one more than the horizon, and Kim is kept (with 7
    days); Alex's birthday of 20 July is 0 days away and Alex is left out.
    At 00:00:00 of the same day Alex is kept and Kim is left out. *)
Theorem horizon_boundary_is_shifted :
  ymd2ord 2024 7 28 - toordinal morning_2024_07_20 = 7 + 1
  /\ ymd2ord 2024 7 20 - toordinal morning_2024_07_20 = 0
  /\ check_upcoming_birthdays nd morning_2024_07_20 [alex; kim] 7
     = ([Upcoming.mk (py "Kim Lee") (py "9 Ash Ct") (py "07/28/1990") 7
           (py "07/28/2024")], [])
  /\ check_upcoming_birthdays nd midnight_2024_07_20 [alex; kim] 7
     = ([Upcoming.mk (py "Alex Doe") (py "5 Elm St") (py "07/20/1985") 0
           (py "07/20/2024")], []).
Proof. repeat split; vm_compute; reflexivity. Qed.

(** C5, at a clock reading the program can get. Alex's birthdate is on
    today's month and day, so this year's occurrence is today, not before
    today; read on 20 July 2024 at 10:15:30.25 the occurrence computed is
    nevertheless the one of 2025. At 00:00:00 of the same day it is the
    one of 2024. *)
Theorem birthday_today_moves_to_next_year :
  strptime_mdY nd (normalize (Contact.Birthdate alex))
  = Some (mk_datetime 1985 7 20 0 0 0 0)
  /\ (year morning_2024_07_20, month morning_2024_07_20,
      day morning_2024_07_20) = (2024, 7, 20)
  /\ occurrence nd morning_2024_07_20 alex
     = Some (mk_datetime 2025 7 20 0 0 0 0)
  /\ occurrence nd midnight_2024_07_20 alex
     = Some (mk_datetime 2024 7 20 0 0 0 0).
Proof. repeat split; vm_compute; reflexivity. Qed.


End BirthdayToday.

(** ** The theorems at sample inputs *)

Lemma load_contacts_is_line_parser_witness :
  Utf8.decode sample_file = Some (py sample_text)
  /\ load_contacts_from_file sample_file
     = (flat_map spec_line_record (split NL (py sample_text)), [])
  /\ flat_map spec_line_record (split NL (py sample_text)) = [jane; john; kim].
Proof.
  split; [reflexivity|]. split; [|reflexivity].
  apply (load_contacts_is_line_parser sample_file (py sample_text)).
  reflexivity.
Defined.

Lemma load_contacts_undecodable_witness :
  Utf8.decode broken_file = None
  /\ load_contacts_from_file broken_file
     = ([], [st_error_loading_file Utf8.UnicodeDecodeError]).
Proof.
  split; [reflexivity|].
  apply (load_contacts_undecodable broken_file). reflexivity.
Defined.

Lemma window_filter_exact_witness :
  let today := morning_2024_07_20 in
  let out :=
    fst (check_upcoming_birthdays ascii_digits_only today [jane; john; kim; lou] 7)
  in
  days_until ascii_digits_only today kim = Some 7
  /\ days_until ascii_digits_only today lou = Some (7 + 1)
  /\ map contact_of out = [jane; kim]
  /\ In kim (map contact_of out)
  /\ ~ In lou (map contact_of out).
Proof.
  intros today out.
  destruct (window_filter_exact ascii_digits_only today [jane; john; kim; lou] 7)
    as (Hfilter & _ & Hin & Hout).
  split; [reflexivity|]. split; [reflexivity|]. split; [|split].
  - etransitivity; [exact Hfilter | reflexivity].
  - apply Hin; [simpl; tauto | lia | reflexivity].
  - apply Hout. reflexivity.
Defined.

Lemma unparseable_kept_then_dropped_witness :
  strptime_mdY ascii_digits_only (normalize (py "Anytown ST 12345")) = None
  /\ In john (fst (load_contacts_from_file sample_file))
  /\ snd (load_contacts_from_file sample_file) = []
  /\ check_upcoming_birthdays ascii_digits_only morning_2024_07_20
       ([jane] ++ john :: [kim]) 7
     = check_upcoming_birthdays ascii_digits_only morning_2024_07_20
         ([jane] ++ [kim]) 7.
Proof.
  destruct (unparseable_kept_then_dropped ascii_digits_only) as [Hkept Hdropped].
  split; [reflexivity|].
  destruct (Hkept sample_file (py sample_text)
              (py "John Doe, 123 Main St, Anytown ST 12345, 03/15/1990")
              (py "John Doe") (py " 123 Main St") (py " Anytown ST 12345")
              [py " 03/15/1990"])
    as [Hin Hlog]; try reflexivity.
  { vm_compute. tauto. }
  split; [exact Hin|]. split; [exact Hlog|].
  apply (Hdropped morning_2024_07_20 7 [jane] john [kim]). reflexivity.
Defined.


(** * Further properties of the code *)

(** ** Trimming and splitting *)

Lemma lstrip_head s c t : lstrip s = c :: t -> isspace c = false.
Proof.
  induction s as [|x s IH]; simpl; [discriminate|].
  destruct (isspace x) eqn:E; [exact IH|]. intros [= <- _]. exact E.
Qed.

Lemma lstrip_idem s : lstrip (lstrip s) = lstrip s.
Proof.
  induction s as [|x s IH]; simpl; [reflexivity|].
  destruct (isspace x) eqn:E; [exact IH|]. simpl. rewrite E. reflexivity.
Qed.

Lemma lstrip_snoc_other c s :
  isspace c = false -> lstrip (s ++ [c]) = lstrip s ++ [c].
Proof.
  intros H. induction s as [|x s IH]; simpl.
  - rewrite H. reflexivity.
  - destruct (isspace x); [exact IH | reflexivity].
Qed.

Lemma rstrip_cons_other c s :
  isspace c = false -> rstrip (c :: s) = c :: rstrip s.
Proof.
  intros H. unfold rstrip. simpl rev.
  rewrite (lstrip_snoc_other c _ H), rev_unit. reflexivity.
Qed.

Lemma rstrip_idem s : rstrip (rstrip s) = rstrip s.
Proof. unfold rstrip. rewrite rev_involutive, lstrip_idem. reflexivity. Qed.

Lemma strip_idem s : strip (strip s) = strip s.
Proof.
  unfold strip. destruct (lstrip s) as [|c t] eqn:E; [reflexivity|].
  pose proof (lstrip_head s c t E) as Hc.
  rewrite (rstrip_cons_other c t Hc). simpl lstrip. rewrite Hc.
  rewrite <- (rstrip_cons_other c t Hc). apply rstrip_idem.
Qed.

Lemma lstrip_In x s : In x (lstrip s) -> In x s.
Proof.
  induction s as [|c s IH]; simpl; [tauto|].
  destruct (isspace c); [tauto|]. simpl. tauto.
Qed.

Lemma strip_In x s : In x (strip s) -> In x s.
Proof.
  unfold strip, rstrip. intros H.
  apply lstrip_In. apply in_rev. apply lstrip_In. apply in_rev in H. exact H.
Qed.

Lemma split_field_In sep s f x : In f (split sep s) -> In x f -> In x s.
Proof.
  revert f. induction s as [|c s IH]; intros f; simpl.
  - intros [<-|[]] [].
  - destruct (c =? sep).
    + intros [<-|Hf] Hx; [destruct Hx|]. right. exact (IH f Hf Hx).
    + destruct (split_nonempty sep s) as (g & gs & E). rewrite E in *.
      intros [<-|Hf] Hx.
      * destruct Hx as [->|Hx]; [left; reflexivity|].
        right. apply (IH g); [left; reflexivity | exact Hx].
      * right. apply (IH f); [right; exact Hf | exact Hx].
Qed.

Lemma split_field_no_sep sep s f : In f (split sep s) -> ~ In sep f.
Proof.
  revert f. induction s as [|c s IH]; intros f; simpl.
  - intros [<-|[]] [].
  - destruct (c =? sep) eqn:Ec.
    + intros [<-|Hf]; [intros []|]. exact (IH f Hf).
    + destruct (split_nonempty sep s) as (g & gs & E). rewrite E in *.
      intros [<-|Hf].
      * intros [->|Hx]; [rewrite Z.eqb_refl in Ec; discriminate|].
        apply (IH g); [left; reflexivity | exact Hx].
      * apply IH. right. exact Hf.
Qed.

Lemma split_app_sep sep a b :
  split sep (a ++ sep :: b) = split sep a ++ split sep b.
Proof.
  induction a as [|c a IH]; simpl.
  - rewrite Z.eqb_refl. reflexivity.
  - rewrite IH. destruct (c =? sep); [reflexivity|].
    destruct (split_nonempty sep a) as (g & gs & E). rewrite E. reflexivity.
Qed.

Lemma strip_all_space s : Forall (fun c => isspace c = true) s -> strip s = [].
Proof.
  intros H. unfold strip.
  assert (E : lstrip s = []).
  { induction H as [|c s Hc _ IH]; simpl; [reflexivity|].
    rewrite Hc. exact IH. }
  rewrite E. reflexivity.
Qed.

(** ** More on the contact parser *)

Lemma clean_field_of_part line f :
  ~ In NL line -> In f (split COMMA line) -> clean_field (strip f).
Proof.
  intros Hnl Hf. split; [apply strip_idem|]. split.
  - intros H. apply strip_In in H. exact (split_field_no_sep _ _ _ Hf H).
  - intros H. apply strip_In in H. apply Hnl.
    exact (split_field_In _ _ _ _ Hf H).
Qed.

Lemma spec_line_record_clean line :
  ~ In NL line -> Forall clean_row (spec_line_record line).
Proof.
  intros Hnl. unfold spec_line_record.
  destruct (truthy (strip line)); [|constructor].
  destruct (split COMMA line) as [|f1 [|f2 [|f3 more]]] eqn:E; try constructor;
    [|constructor].
  repeat split; simpl;
    try apply strip_idem;
    intros H; apply strip_In in H;
    solve [ eapply (split_field_no_sep COMMA line); [|exact H];
            rewrite E; simpl; tauto
          | apply Hnl; eapply (split_field_In COMMA line); [|exact H];
            rewrite E; simpl; tauto ].
Qed.

(** X1. Every field of every row of the contact frame is trimmed and holds
    neither a comma nor a line feed. *)
Theorem parsed_fields_clean uploaded_file text :
  Utf8.decode uploaded_file = Some text ->
  Forall clean_row (fst (load_contacts_from_file uploaded_file)).
Proof.
  intros Hd. rewrite (load_decoded _ _ Hd). simpl.
  unfold spec_contact_parser. apply List.Forall_forall. intros r Hr.
  apply in_flat_map in Hr. destruct Hr as (line & Hline & Hr).
  pose proof (spec_line_record_clean line
                (split_field_no_sep NL text line Hline)) as HF.
  rewrite List.Forall_forall in HF. exact (HF r Hr).
Qed.

(** X2. A file of white space only, the empty file included, gives the empty
    frame and no message. *)
Theorem blank_file_empty_frame uploaded_file text :
  Utf8.decode uploaded_file = Some text ->
  Forall (fun c => isspace c = true) text ->
  load_contacts_from_file uploaded_file = ([], []).
Proof.
  intros Hd Hs. unfold load_contacts_from_file. rewrite Hd.
  rewrite (strip_all_space text Hs). reflexivity.
Qed.

Lemma fmap_cons_app (x : Z) (t : pystr) (o : option pystr) :
  cons x <$> (app t <$> o) = app (x :: t) <$> o.
Proof. destruct o; reflexivity. Qed.

Lemma decode_app_bounded n :
  forall a, (length a <= n)%nat -> forall ta b,
    Utf8.decode a = Some ta ->
    Utf8.decode (a ++ b) = app ta <$> Utf8.decode b.
Proof.
  induction n as [|n IH]; intros a Hn ta b Ha.
  - destruct a; [|simpl in Hn; lia].
    simpl in Ha. injection Ha as <-. simpl. destruct (Utf8.decode b); reflexivity.
  - destruct a as [|b0 r0].
    { simpl in Ha. injection Ha as <-. simpl.
      destruct (Utf8.decode b); reflexivity. }
    simpl in Hn. cbn [app Utf8.decode] in *.
    destruct (Utf8.bz b0 <? 128).
    { destruct (Utf8.decode r0) as [t|] eqn:E; [|discriminate].
      injection Ha as <-. rewrite (IH r0 ltac:(lia) t b E).
      apply fmap_cons_app. }
    destruct (Utf8.between 194 223 (Utf8.bz b0)).
    { destruct r0 as [|b1 r1]; [discriminate|]. cbn [app].
      destruct (Utf8.cont (Utf8.bz b1)); [|discriminate].
      destruct (Utf8.decode r1) as [t|] eqn:E; [|discriminate].
      injection Ha as <-. simpl in Hn. rewrite (IH r1 ltac:(lia) t b E).
      apply fmap_cons_app. }
    destruct (Utf8.between 224 239 (Utf8.bz b0)).
    { destruct r0 as [|b1 [|b2 r2]]; try discriminate. cbn [app].
      destruct (_ && _); [|discriminate].
      destruct (Utf8.decode r2) as [t|] eqn:E; [|discriminate].
      injection Ha as <-. simpl in Hn. rewrite (IH r2 ltac:(lia) t b E).
      apply fmap_cons_app. }
    destruct (Utf8.between 240 244 (Utf8.bz b0)); [|discriminate].
    destruct r0 as [|b1 [|b2 [|b3 r3]]]; try discriminate. cbn [app].
    destruct (_ && _); [|discriminate].
    destruct (Utf8.decode r3) as [t|] eqn:E; [|discriminate].
    injection Ha as <-. simpl in Hn. rewrite (IH r3 ltac:(lia) t b E).
    apply fmap_cons_app.
Qed.

Lemma decode_app a b ta tb :
  Utf8.decode a = Some ta -> Utf8.decode b = Some tb ->
  Utf8.decode (a ++ b) = Some (ta ++ tb).
Proof.
  intros Ha Hb. rewrite (decode_app_bounded (length a) a (le_n _) ta b Ha), Hb.
  reflexivity.
Qed.

(** X3. Two files put together with a line feed between them give the rows of
    the first followed by the rows of the second: a line added at the end
    of a file changes no earlier row. *)
Theorem load_concatenated_files file1 file2 text1 text2 :
  Utf8.decode file1 = Some text1 ->
  Utf8.decode file2 = Some text2 ->
  load_contacts_from_file (file1 ++ [x0a] ++ file2)
  = (fst (load_contacts_from_file file1) ++ fst (load_contacts_from_file file2),
     []).
Proof.
  intros H1 H2.
  assert (H : Utf8.decode (file1 ++ [x0a] ++ file2) = Some (text1 ++ NL :: text2)).
  { apply decode_app; [exact H1|].
    change ([x0a] ++ file2) with (x0a :: file2).
    cbn [Utf8.decode]. change (Utf8.bz x0a <? 128) with true. cbv iota.
    rewrite H2. reflexivity. }
  rewrite (load_decoded _ _ H), (load_decoded _ _ H1), (load_decoded _ _ H2).
  unfold spec_contact_parser. simpl fst.
  rewrite split_app_sep, flat_map_app. reflexivity.
Qed.

Lemma decode_ascii bytes :
  Forall (fun b => Utf8.bz b < 128) bytes ->
  Utf8.decode bytes = Some (map Utf8.bz bytes).
Proof.
  induction 1 as [|b bytes Hb _ IH]; [reflexivity|].
  cbn [Utf8.decode map]. apply Z.ltb_lt in Hb. rewrite Hb, IH. reflexivity.
Qed.

(** X4. A file of 7-bit bytes is always read: no error is shown, and the rows
    are those of the text with one character per byte. *)
Theorem ascii_file_always_loads uploaded_file :
  Forall (fun b => Utf8.bz b < 128) uploaded_file ->
  load_contacts_from_file uploaded_file
  = (flat_map spec_line_record (split NL (map Utf8.bz uploaded_file)), []).
Proof.
  intros H. exact (load_decoded _ _ (decode_ascii _ H)).
Qed.

(** ** The calendar *)

Section Calendar.

Import Datetime.

Lemma check_date_fields_bounds y m d :
  check_date_fields y m d = true ->
  1 <= y <= 9999 /\ 1 <= m <= 12 /\ 1 <= d <= days_in_month y m.
Proof.
  unfold check_date_fields, MINYEAR, MAXYEAR. intros H.
  repeat (apply andb_true_iff in H; destruct H as [H ?]). lia.
Qed.

Ltac month_cases m :=
  let H := fresh in
  assert (H : m = 1 \/ m = 2 \/ m = 3 \/ m = 4 \/ m = 5 \/ m = 6 \/ m = 7
              \/ m = 8 \/ m = 9 \/ m = 10 \/ m = 11 \/ m = 12) by lia;
  repeat (destruct H as [H|H]); subst m;
  repeat match goal with
         | |- context [Z.to_nat ?k] =>
             let v := eval vm_compute in (Z.to_nat k) in
             change (Z.to_nat k) with v
         | H' : context [Z.to_nat ?k] |- _ =>
             let v := eval vm_compute in (Z.to_nat k) in
             change (Z.to_nat k) with v in H'
         end.

Lemma day_of_year_bounds y m d :
  check_date_fields y m d = true ->
  1 <= days_before_month y m + d <= 365 + (if is_leap y then 1 else 0).
Proof.
  intros H. apply check_date_fields_bounds in H. destruct H as (_ & Hm & Hd).
  unfold days_in_month, days_before_month in *.
  destruct (is_leap y); month_cases m; cbn in *; lia.
Qed.

Lemma day_of_year_monotone y m1 d1 m2 d2 :
  check_date_fields y m1 d1 = true ->
  check_date_fields y m2 d2 = true ->
  m1 < m2 \/ (m1 = m2 /\ d1 < d2) ->
  days_before_month y m1 + d1 < days_before_month y m2 + d2.
Proof.
  intros H1 H2 Hlt.
  apply check_date_fields_bounds in H1, H2.
  destruct H1 as (_ & Hm1 & Hd1). destruct H2 as (_ & Hm2 & Hd2).
  unfold days_in_month, days_before_month in *.
  destruct (is_leap y); month_cases m1; month_cases m2; cbn in *; lia.
Qed.

Lemma year_length y :
  days_before_year (y + 1)
  = days_before_year y + 365 + (if is_leap y then 1 else 0).
Proof.
  unfold days_before_year, is_leap. cbv zeta.
  replace (y + 1 - 1) with y by lia.
  repeat match goal with
         | |- context [?a =? ?b] =>
             destruct (Z.eqb_spec a b); cbn [andb orb negb]
         end;
    Z.to_euclidean_division_equations; lia.
Qed.

Lemma leap_years_apart y : is_leap y = true -> is_leap (y + 1) = false.
Proof.
  unfold is_leap. intros H. apply andb_true_iff in H. destruct H as [H _].
  apply Z.eqb_eq in H.
  assert (E : ((y + 1) mod 4 =? 0) = false).
  { apply Z.eqb_neq. Z.to_euclidean_division_equations; lia. }
  rewrite E. reflexivity.
Qed.

Lemma at_midnight_fields t :
  valid t = true ->
  (at_midnight t = true ->
   hour t = 0 /\ minute t = 0 /\ second t = 0 /\ microsecond t = 0)
  /\ (at_midnight t = false ->
      0 < hour t + minute t + second t + microsecond t).
Proof.
  intros Hv. destruct (valid_fields t Hv) as (_ & Hh & Hmi & Hs & Hus).
  unfold at_midnight. split; intros H.
  - apply Z.eqb_eq in H. lia.
  - apply Z.eqb_neq in H. lia.
Qed.

(** The days from a clock reading to a later or earlier midnight: the
    difference of the calendar days, less one unless the reading is itself
    a midnight. *)
Lemma days_to_midnight y m d today :
  valid today = true ->
  days (sub (mk_datetime y m d 0 0 0 0) today)
  = ymd2ord y m d - toordinal today - (if at_midnight today then 0 else 1).
Proof.
  intros Hv. destruct (valid_fields today Hv) as (_ & Hh & Hmi & Hs & Hus).
  unfold sub, timedelta_new, at_midnight, toordinal. cbv zeta.
  cbn [year month day hour minute second microsecond days].
  generalize (ymd2ord y m d).
  generalize (ymd2ord (year today) (month today) (day today)). intros o1 o2.
  destruct (Z.eqb_spec (hour today + minute today + second today
                        + microsecond today) 0);
    Z.to_euclidean_division_equations; lia.
Qed.

(** A midnight of the current year against the clock reading. *)
Lemma lt_midnight m d today :
  valid today = true ->
  (lt (mk_datetime (year today) m d 0 0 0 0) today = true ->
   m < month today \/ (m = month today /\ d < day today)
   \/ (m = month today /\ d = day today /\ at_midnight today = false))
  /\ (lt (mk_datetime (year today) m d 0 0 0 0) today = false ->
      month today < m \/ (m = month today /\ day today < d)
      \/ (m = month today /\ d = day today /\ at_midnight today = true)).
Proof.
  intros Hv. destruct (valid_fields today Hv) as (_ & Hh & Hmi & Hs & Hus).
  unfold lt, fields, at_midnight.
  cbn [tuple_lt year month day hour minute second microsecond].
  rewrite Z.ltb_irrefl, Z.eqb_refl. cbn [andb orb].
  split;
    repeat match goal with
           | |- context [?a <? ?b] => destruct (Z.ltb_spec a b); cbn [andb orb]
           | |- context [?a =? ?b] => destruct (Z.eqb_spec a b); cbn [andb orb]
           end; intros Hcmp; try discriminate Hcmp; lia.
Qed.

End Calendar.

(** ** More on the birthday window filter *)

Section FilterFurther.

Import Datetime.
Variable nd : Z -> option Z.

Lemma occurrence_cases today c occ :
  occurrence nd today c = Some occ ->
  exists b,
    strptime_mdY nd (normalize (Contact.Birthdate c)) = Some b
    /\ check_date_fields (year today) (month b) (day b) = true
    /\ ((lt (mk_datetime (year today) (month b) (day b) 0 0 0 0) today = true
         /\ check_date_fields (year today + 1) (month b) (day b) = true
         /\ occ = mk_datetime (year today + 1) (month b) (day b) 0 0 0 0)
        \/ (lt (mk_datetime (year today) (month b) (day b) 0 0 0 0) today = false
            /\ occ = mk_datetime (year today) (month b) (day b) 0 0 0 0)).
Proof.
  unfold occurrence, next_birthday.
  destruct (strptime_mdY nd _) as [b|] eqn:Eb; [|discriminate].
  destruct (strptime_midnight nd _ _ Eb) as [Hb _].
  destruct (replace_year b (year today)) as [ty|] eqn:Ety; [|discriminate].
  destruct (replace_year_some _ _ _ Ety) as [Hty Hck].
  rewrite Hb in Hty. cbn [month day hour minute second microsecond] in Hty.
  subst ty. intros Hocc. exists b. split; [reflexivity|]. split; [exact Hck|].
  destruct (lt _ today).
  - left. destruct (replace_year_some _ _ _ Hocc) as [Ho Hck'].
    rewrite Hb in Ho. cbn [month day hour minute second microsecond] in Ho.
    auto.
  - right. injection Hocc as <-. auto.
Qed.

Lemma days_until_ordinals today c occ :
  valid today = true ->
  occurrence nd today c = Some occ ->
  days_until nd today c
  = Some (toordinal occ - toordinal today
          - (if at_midnight today then 0 else 1)).
Proof.
  intros Hv Ho. unfold days_until. rewrite Ho. f_equal.
  destruct (occurrence_cases today c occ Ho)
    as (b & _ & _ & [(_ & _ & ->)|(_ & ->)]);
    apply days_to_midnight; exact Hv.
Qed.

(** X5. [Days Until] is the number of calendar days from today's date to
    the date of the occurrence, less one unless the clock reads midnight. *)
Theorem days_until_calendar today c occ :
  valid today = true ->
  occurrence nd today c = Some occ ->
  days_until nd today c
  = Some (toordinal occ - toordinal today
          - (if at_midnight today then 0 else 1)).
Proof. exact (days_until_ordinals today c occ). Qed.

(** X6. [Days Until] is never negative and never above 365: the lower test of
    line 77 excludes nothing, and a horizon of 365 days keeps every contact
    for which an occurrence is computed. *)
Theorem days_until_range today c d :
  valid today = true ->
  days_until nd today c = Some d ->
  0 <= d <= 365 /\ (forall H, 365 <= H -> in_window nd today H c = true).
Proof.
  intros Hv Hd.
  assert (Hr : 0 <= d <= 365).
  { destruct (occurrence nd today c) as [occ|] eqn:Ho;
      [|unfold days_until in Hd; rewrite Ho in Hd; discriminate].
    rewrite (days_until_ordinals today c occ Hv Ho) in Hd.
    injection Hd as <-.
    destruct (valid_fields today Hv) as (Hck & _).
    destruct (occurrence_cases today c occ Ho) as (b & _ & Hb & Hcase).
    pose proof (day_of_year_bounds _ _ _ Hck) as Bt.
    pose proof (day_of_year_bounds _ _ _ Hb) as Bb.
    pose proof (year_length (year today)) as Hy.
    destruct (lt_midnight (month b) (day b) today Hv) as [Htrue Hfalse].
    unfold toordinal, ymd2ord.
    destruct Hcase as [(Hlt & Hb' & ->)|(Hlt & ->)];
      cbn [year month day].
    - pose proof (day_of_year_bounds _ _ _ Hb') as Bb'.
      pose proof (year_step nd (year today) (month b) (day b)) as Hs.
      unfold ymd2ord in Hs.
      destruct (Htrue Hlt) as [Hm|[[Hm Hdd]|(Hm & Hdd & Hmid)]];
        clear Htrue Hfalse Hlt Ho.
      + pose proof (day_of_year_monotone _ _ _ _ _ Hb Hck (or_introl Hm)).
        destruct (at_midnight today), (is_leap (year today)),
          (is_leap (year today + 1)); lia.
      + pose proof (day_of_year_monotone _ _ _ _ _ Hb Hck
                      (or_intror (conj Hm Hdd))).
        destruct (at_midnight today), (is_leap (year today)),
          (is_leap (year today + 1)); lia.
      + rewrite Hmid. rewrite Hm, Hdd in *.
        destruct (is_leap (year today)), (is_leap (year today + 1)); lia.
    - destruct (Hfalse Hlt) as [Hm|[[Hm Hdd]|(Hm & Hdd & Hmid)]];
        clear Htrue Hfalse Hlt Ho.
      + pose proof (day_of_year_monotone _ _ _ _ _ Hck Hb (or_introl Hm)).
        destruct (at_midnight today), (is_leap (year today)),
          (is_leap (year today + 1)); lia.
      + pose proof (day_of_year_monotone _ _ _ _ _ Hck Hb
                      (or_intror (conj (eq_sym Hm) Hdd))).
        destruct (at_midnight today), (is_leap (year today)),
          (is_leap (year today + 1)); lia.
      + rewrite Hmid. rewrite Hm, Hdd. lia. }
  split; [exact Hr|].
  intros H HH. unfold in_window. rewrite Hd.
  apply andb_true_iff. split; apply Z.leb_le; lia.
Qed.

(** X7. A birthdate of 29 February: the contact is listed only when the
    current year is a leap year, with the occurrence of that year; in any
    other year it is left out whatever the horizon. *)
Theorem leap_day_birthdate today c b :
  strptime_mdY nd (normalize (Contact.Birthdate c)) = Some b ->
  month b = 2 -> day b = 29 ->
  (is_leap (year today) = false -> forall H, rows_of nd today H c = [])
  /\ (forall occ, occurrence nd today c = Some occ ->
                  is_leap (year today) = true /\ year occ = year today).
Proof.
  intros Eb Hm Hd.
  assert (Hfeb : forall y, check_date_fields y 2 29 = true -> is_leap y = true).
  { intros y Hy. apply check_date_fields_bounds in Hy.
    destruct Hy as (_ & _ & Hy). unfold days_in_month in Hy.
    destruct (is_leap y); [reflexivity|].
    change (nth (Z.to_nat 2) DAYS_IN_MONTH (-1)) with 28 in Hy.
    cbn in Hy. lia. }
  assert (Hocc : forall occ, occurrence nd today c = Some occ ->
                  is_leap (year today) = true /\ year occ = year today).
  { intros occ Ho.
    destruct (occurrence_cases today c occ Ho) as (b' & Eb' & Hck & Hcase).
    rewrite Eb in Eb'. injection Eb' as <-. rewrite Hm, Hd in *.
    pose proof (Hfeb _ Hck) as Hleap. split; [exact Hleap|].
    destruct Hcase as [(_ & Hck' & _)|(_ & ->)]; [|reflexivity].
    apply Hfeb in Hck'. rewrite (leap_years_apart _ Hleap) in Hck'.
    discriminate. }
  split; [|exact Hocc].
  intros Hnl H. unfold rows_of, iteration.
  destruct (occurrence nd today c) as [occ|] eqn:Ho; [|reflexivity].
  destruct (Hocc occ eq_refl) as [Hleap _]. congruence.
Qed.

Lemma filter_flat_map {A B} (f : B -> bool) (g : A -> list B) l :
  List.filter f (flat_map g l) = flat_map (fun a => List.filter f (g a)) l.
Proof.
  induction l as [|a l IH]; simpl; [reflexivity|].
  rewrite List.filter_app, IH. reflexivity.
Qed.

(** X8. A smaller horizon gives the rows of the larger one whose [Days Until]
    is within it: moving the slider up only adds rows, in place. *)
Theorem smaller_horizon_filters today contacts H H' :
  H <= H' ->
  fst (check_upcoming_birthdays nd today contacts H)
  = List.filter (fun r => Upcoming.Days_Until r <=? H)
      (fst (check_upcoming_birthdays nd today contacts H')).
Proof.
  intros HH. rewrite !check_flat_map. simpl fst. rewrite filter_flat_map.
  apply flat_map_ext. intros c. unfold rows_of, iteration.
  destruct (occurrence nd today c) as [t|]; [|reflexivity].
  set (d := days (sub t today)).
  destruct (Z.leb_spec 0 d), (Z.leb_spec d H), (Z.leb_spec d H');
    cbn [andb List.filter Upcoming.Days_Until]; try lia;
    try reflexivity;
    destruct (Z.leb_spec d H); try lia; reflexivity.
Qed.

(** X9. Each contact is judged on its own: the result for two frames put
    together is the two results put together. *)
Theorem filter_of_appended_frames today contacts1 contacts2 H :
  fst (check_upcoming_birthdays nd today (contacts1 ++ contacts2) H)
  = fst (check_upcoming_birthdays nd today contacts1 H)
    ++ fst (check_upcoming_birthdays nd today contacts2 H).
Proof. rewrite !check_flat_map. simpl. apply flat_map_app. Qed.

Lemma rows_of_contact_of today H c :
  flat_map (rows_of nd today H) (map contact_of (rows_of nd today H c))
  = rows_of nd today H c.
Proof.
  destruct (rows_of nd today H c) as [|r l] eqn:E; [reflexivity|].
  assert (Hl : l = [] /\ contact_of r = c).
  { pose proof (rows_of_window nd today H c) as W. rewrite E in W.
    destruct (in_window nd today H c); simpl in W; [|discriminate].
    injection W as W1 W2. split; [|exact W1].
    destruct l; [reflexivity | discriminate]. }
  destruct Hl as [-> Hc]. simpl. rewrite Hc, E. reflexivity.
Qed.

(** X10. The filter applied to the contacts of its own result, at the same
    clock reading and horizon, returns that result again. *)
Theorem filter_again_same_result today contacts H :
  let out := fst (check_upcoming_birthdays nd today contacts H) in
  fst (check_upcoming_birthdays nd today (map contact_of out) H) = out.
Proof.
  cbv zeta. rewrite !check_flat_map. simpl fst.
  induction contacts as [|c contacts IH]; [reflexivity|].
  simpl. rewrite map_app, flat_map_app, IH, rows_of_contact_of. reflexivity.
Qed.

End FilterFurther.

(** ** The separators of a birthdate *)

Ltac cases_on_chars :=
  repeat (cbn [replace app];
          match goal with
          | |- context [?a =? ?b] =>
              destruct (Z.eqb_spec a b);
              try (exfalso; unfold SLASH, DASH, DOT, SPACE, COMMA in *; lia)
          end);
  cbn [replace app].

Lemma normalize_dashes s : normalize (replace SLASH [DASH] s) = normalize s.
Proof.
  unfold normalize. induction s as [|c s IH]; [reflexivity|].
  cases_on_chars; subst; rewrite ?IH; reflexivity.
Qed.

Lemma normalize_dots s : normalize (replace SLASH [DOT] s) = normalize s.
Proof.
  unfold normalize. induction s as [|c s IH]; [reflexivity|].
  cases_on_chars; subst; rewrite ?IH; reflexivity.
Qed.

(** X11. A birthdate written with dashes or with dots in place of the slashes is
    read as the same date: same occurrence, same [Days Until]. *)
Theorem separators_read_alike nd today name address birthdate :
  let contact s := Contact.mk name address s in
  (occurrence nd today (contact (replace SLASH [DASH] birthdate))
   = occurrence nd today (contact birthdate)
   /\ days_until nd today (contact (replace SLASH [DASH] birthdate))
      = days_until nd today (contact birthdate))
  /\ (occurrence nd today (contact (replace SLASH [DOT] birthdate))
      = occurrence nd today (contact birthdate)
      /\ days_until nd today (contact (replace SLASH [DOT] birthdate))
         = days_until nd today (contact birthdate)).
Proof.
  cbv zeta. unfold days_until, occurrence. cbn [Contact.Birthdate].
  rewrite normalize_dashes, normalize_dots. repeat split.
Qed.

(** ** More on the postage link *)

Lemma escape_char_cases c :
  (c = SPACE /\ spec_escape_char c = [37; 50; 48])
  \/ (c = COMMA /\ spec_escape_char c = [37; 50; 67])
  \/ (c <> SPACE /\ c <> COMMA /\ spec_escape_char c = [c]).
Proof.
  unfold spec_escape_char.
  destruct (Z.eqb_spec c SPACE); [left; split; [assumption | reflexivity]|].
  destruct (Z.eqb_spec c COMMA); [right; left; split; [assumption | reflexivity]|].
  right; right. auto.
Qed.

Lemma link_is_escape address :
  generate_usps_postage_link address
  = py "https://cns.usps.com/mailpieces?destination=" ++ spec_escape address.
Proof.
  unfold generate_usps_postage_link. rewrite escape_pointwise. reflexivity.
Qed.

Lemma escape_no_space_comma address :
  ~ In SPACE (spec_escape address) /\ ~ In COMMA (spec_escape address).
Proof.
  unfold spec_escape. induction address as [|c address [IH1 IH2]]; simpl.
  - tauto.
  - rewrite !in_app_iff.
    destruct (escape_char_cases c) as [[_ ->]|[[_ ->]|(H1 & H2 & ->)]];
      unfold SPACE, COMMA in *; simpl; split; intros [H|H];
      try tauto; intuition lia.
Qed.

(** X12. The link never holds a space or a comma, whatever the address. *)
Theorem link_without_space_or_comma address :
  ~ In SPACE (generate_usps_postage_link address)
  /\ ~ In COMMA (generate_usps_postage_link address).
Proof.
  rewrite link_is_escape.
  destruct (escape_no_space_comma address) as [H1 H2].
  split; intros H; apply in_app_iff in H; destruct H as [H|H]; try tauto;
    vm_compute in H; intuition discriminate.
Qed.

(** X13. An address that is already escaped gives the link of the address it
    was escaped from: a percent sign is never escaped, so the text [%20]
    in an address and a space give the same link. *)
Theorem link_of_escaped_address address :
  generate_usps_postage_link (spec_escape address)
  = generate_usps_postage_link address.
Proof.
  rewrite !link_is_escape. f_equal.
  unfold spec_escape. induction address as [|c address IH]; [reflexivity|].
  simpl. rewrite flat_map_app, IH. f_equal.
  destruct (escape_char_cases c) as [[_ ->]|[[_ ->]|(H1 & H2 & ->)]];
    try reflexivity.
  simpl. rewrite app_nil_r. unfold spec_escape_char.
  destruct (Z.eqb_spec c SPACE); [contradiction|].
  destruct (Z.eqb_spec c COMMA); [contradiction|]. reflexivity.
Qed.

Lemma escape_injective a b :
  ~ In 37 a -> ~ In 37 b -> spec_escape a = spec_escape b -> a = b.
Proof.
  unfold spec_escape. revert b.
  induction a as [|x a IH]; intros [|y b] Ha Hb E; try reflexivity.
  - simpl in E.
    destruct (escape_char_cases y) as [[_ Hy]|[[_ Hy]|(_ & _ & Hy)]];
      rewrite Hy in E; discriminate.
  - simpl in E.
    destruct (escape_char_cases x) as [[_ Hx]|[[_ Hx]|(_ & _ & Hx)]];
      rewrite Hx in E; discriminate.
  - cbn [flat_map] in E. simpl in Ha, Hb.
    assert (Hx37 : x <> 37) by tauto. assert (Hy37 : y <> 37) by tauto.
    destruct (escape_char_cases x) as [[Hx Ex]|[[Hx Ex]|(Hx1 & Hx2 & Ex)]];
      destruct (escape_char_cases y) as [[Hy Ey]|[[Hy Ey]|(Hy1 & Hy2 & Ey)]];
      rewrite Ex, Ey in E; simpl in E; injection E as E; try lia;
      try discriminate; try (subst; f_equal; apply IH; tauto).
Qed.

(** X14. Two addresses without a percent sign that give the same link are the
    same address. *)
Theorem link_injective_without_percent address1 address2 :
  ~ In 37 address1 -> ~ In 37 address2 ->
  generate_usps_postage_link address1 = generate_usps_postage_link address2 ->
  address1 = address2.
Proof.
  intros H1 H2 E. rewrite !link_is_escape in E.
  apply app_inv_head in E. exact (escape_injective _ _ H1 H2 E).
Qed.

(** ** The mailing options *)

(** X15. A recipient taken from the names of the frame, if the name is not
    empty, always gets an address and a link: those of the first row with
    that name. A later row with the same name is never the one mailed. *)
Theorem mailing_uses_first_row contacts selected_contact :
  In selected_contact (map Contact.Name contacts) ->
  selected_contact <> [] ->
  exists before row after,
    contacts = before ++ row :: after
    /\ Contact.Name row = selected_contact
    /\ Forall (fun r => Contact.Name r <> selected_contact) before
    /\ mailing_options contacts selected_contact
       = Shown (Contact.Address row)
           (generate_usps_postage_link (Contact.Address row)).
Proof.
  intros Hin Hne. unfold mailing_options.
  destruct selected_contact as [|c0 s0] eqn:Es; [contradiction|].
  cbn [truthy]. rewrite <- Es in *. clear Es Hne c0 s0.
  induction contacts as [|r contacts IH]; [destruct Hin|].
  unfold rows_named. cbn [List.filter].
  destruct (bool_decide (Contact.Name r = selected_contact)) eqn:E.
  - apply bool_decide_eq_true in E.
    exists [], r, contacts. repeat split; [exact E | constructor].
  - apply bool_decide_eq_false in E.
    destruct Hin as [Hin|Hin]; [contradiction|].
    destruct (IH Hin) as (before & row & after & -> & Hn & Hb & Hm).
    exists (r :: before), row, after. repeat split; try assumption.
    constructor; assumption.
Qed.

(** ** The layout of the card *)

Section CardProperties.

Variable tw : font -> pystr -> Z.

Lemma wrap_fold words :
  forall groups cur,
    Forall (good_group tw) groups ->
    ((2 <= length cur)%nat -> fits tw cur) ->
    exists groups' cur',
      fold_left (wrap_step tw) words (map (join [SPACE]) groups, cur)
      = (map (join [SPACE]) groups', cur')
      /\ Forall (good_group tw) groups'
      /\ ((2 <= length cur')%nat -> fits tw cur')
      /\ concat groups' ++ cur' = concat groups ++ cur ++ words.
Proof.
  induction words as [|w words IH]; intros groups cur Hg Hc.
  - exists groups, cur. rewrite app_nil_r. auto.
  - cbn [fold_left]. unfold wrap_step at 2.
    destruct (Z.leb_spec (tw text_font (join [SPACE] (cur ++ [w])))
                (width - 40)) as [Hfit|Hover].
    + destruct (IH groups (cur ++ [w]) Hg (fun _ => Hfit))
        as (groups' & cur' & E & Hg' & Hc' & Hcat).
      exists groups', cur'. rewrite E, Hcat, <- !app_assoc. auto.
    + assert (E0 : match cur with
                   | [] => map (join [SPACE]) groups
                   | _ => map (join [SPACE]) groups ++ [join [SPACE] cur]
                   end
                   = map (join [SPACE]) (match cur with
                                         | [] => groups
                                         | _ => groups ++ [cur]
                                         end)).
      { destruct cur; [reflexivity|]. rewrite map_app. reflexivity. }
      rewrite E0.
      destruct (IH (match cur with [] => groups | _ => groups ++ [cur] end) [w])
        as (groups' & cur' & E & Hg' & Hc' & Hcat).
      * destruct cur as [|x cur]; [exact Hg|].
        apply Forall_app. split; [exact Hg|].
        constructor; [|constructor]. split; [discriminate | exact Hc].
      * simpl. lia.
      * exists groups', cur'. rewrite E, Hcat.
        repeat split; try assumption.
        destruct cur; [reflexivity|].
        rewrite concat_app. simpl. rewrite app_nil_r, <- !app_assoc.
        reflexivity.
Qed.

Lemma wrap_message_groups message :
  exists groups,
    wrap_message tw message = map (join [SPACE]) groups
    /\ concat groups = split_ws message
    /\ Forall (good_group tw) groups.
Proof.
  unfold wrap_message.
  destruct (wrap_fold (split_ws message) [] [] (List.Forall_nil _))
    as (groups & cur & E & Hg & Hc & Hcat); [simpl; lia|].
  change (@nil pystr) with (map (join [SPACE]) []) at 1. rewrite E.
  simpl in Hcat. destruct cur as [|x cur].
  - exists groups. rewrite app_nil_r in Hcat. auto.
  - exists (groups ++ [x :: cur]). rewrite map_app, concat_app. simpl.
    rewrite app_nil_r. repeat split; try assumption.
    apply Forall_app. split; [exact Hg|].
    constructor; [|constructor]. split; [discriminate | exact Hc].
Qed.

Lemma join_app sep (a b : list pystr) :
  a <> [] -> b <> [] ->
  join sep (a ++ b) = join sep a ++ sep ++ join sep b.
Proof.
  intros Ha Hb. induction a as [|x a IH]; [contradiction|].
  destruct a as [|y a].
  - simpl. destruct b; [contradiction | reflexivity].
  - change (join sep ((x :: y :: a) ++ b))
      with (x ++ sep ++ join sep ((y :: a) ++ b)).
    rewrite IH by discriminate.
    change (join sep (x :: y :: a)) with (x ++ sep ++ join sep (y :: a)).
    rewrite <- !app_assoc. reflexivity.
Qed.

Lemma join_lines sep (groups : list (list pystr)) :
  Forall (fun g => g <> []) groups ->
  join sep (map (join sep) groups) = join sep (concat groups).
Proof.
  induction 1 as [|g groups Hg Hgs IH]; [reflexivity|].
  destruct groups as [|g2 groups].
  - simpl. rewrite app_nil_r. reflexivity.
  - change (join sep (map (join sep) (g :: g2 :: groups)))
      with (join sep g ++ sep ++ join sep (map (join sep) (g2 :: groups))).
    rewrite IH.
    change (concat (g :: g2 :: groups)) with (g ++ concat (g2 :: groups)).
    rewrite (join_app sep g (concat (g2 :: groups)));
      [reflexivity | exact Hg |].
    inversion Hgs; subst. destruct g2; [contradiction | discriminate].
Qed.

Lemma words_from_nonempty s :
  forall cur, Forall (fun w => w <> []) (words_from s cur).
Proof.
  induction s as [|c s IH]; intros cur; simpl.
  - destruct cur; constructor; [discriminate | constructor].
  - destruct (isspace c); [|apply IH].
    destruct cur; [apply IH|]. constructor; [discriminate | apply IH].
Qed.

Lemma concat_length_ge (groups : list (list pystr)) :
  Forall (fun g => g <> []) groups ->
  (length groups <= length (concat groups))%nat.
Proof.
  induction 1 as [|g groups Hg _ IH]; simpl; [lia|].
  rewrite length_app. destruct g; [contradiction|]. simpl. lia.
Qed.

Lemma good_groups_nonempty groups :
  Forall (good_group tw) groups -> Forall (fun g => g <> []) groups.
Proof. apply List.Forall_impl. intros g [H _]. exact H. Qed.

(** X16. The wrapped lines hold every word of the message once, in order, one
    space between two words of a line: joined by spaces they are the
    message with each run of white space turned into one space. No line is
    empty, and there are at most as many lines as words, so a message of
    white space only gives no line. *)
Theorem wrapping_keeps_the_words message :
  join [SPACE] (wrap_message tw message) = join [SPACE] (split_ws message)
  /\ Forall (fun line => line <> []) (wrap_message tw message)
  /\ (length (wrap_message tw message) <= length (split_ws message))%nat.
Proof.
  destruct (wrap_message_groups message) as (groups & -> & Hcat & Hg).
  pose proof (good_groups_nonempty groups Hg) as Hne.
  split; [|split].
  - rewrite (join_lines [SPACE] groups Hne), Hcat. reflexivity.
  - apply List.Forall_forall. intros line Hl.
    apply in_map_iff in Hl. destruct Hl as (g & <- & Hin).
    rewrite List.Forall_forall in Hne. pose proof (Hne g Hin) as Hgne.
    destruct g as [|x g]; [contradiction|].
    assert (Hx : x <> []).
    { pose proof (words_from_nonempty message []) as Hw.
      fold (split_ws message) in Hw. rewrite <- Hcat in Hw.
      rewrite List.Forall_forall in Hw. apply Hw.
      apply in_concat. exists (x :: g). split; [exact Hin | left; reflexivity]. }
    destruct x; [contradiction|]. destruct g; discriminate.
  - rewrite length_map, <- Hcat. apply concat_length_ge, Hne.
Qed.

(** X17. A wrapped line is at most 360 pixels wide in the text font, unless it
    is a single word of the message that is itself wider. *)
Theorem wrapped_lines_fit message :
  Forall (fun line => tw text_font line <= 360 \/ In line (split_ws message))
         (wrap_message tw message).
Proof.
  destruct (wrap_message_groups message) as (groups & -> & Hcat & Hg).
  apply List.Forall_forall. intros line Hl.
  apply in_map_iff in Hl. destruct Hl as (g & <- & Hin).
  rewrite List.Forall_forall in Hg. destruct (Hg g Hin) as [Hne Hfit].
  destruct g as [|x [|y g]]; [contradiction| |].
  - right. rewrite <- Hcat. apply in_concat.
    exists [x]. split; [exact Hin | left; reflexivity].
  - left. apply Hfit. simpl. lia.
Qed.

Lemma draw_fold fill lines :
  forall drawn y,
    fold_left (draw_line_step tw fill) lines (drawn, y)
    = (drawn
       ++ imap (fun i line =>
                  mk_draw_text ((width - tw text_font line) / 2)
                    (y + 25 * Z.of_nat i) line fill text_font) lines,
       y + 25 * Z.of_nat (length lines)).
Proof.
  induction lines as [|l lines IH]; intros drawn y.
  - simpl. rewrite app_nil_r. f_equal. lia.
  - cbn [fold_left draw_line_step]. rewrite IH, <- app_assoc.
    cbn [imap app length]. f_equal.
    + f_equal. f_equal.
      * f_equal. lia.
      * apply imap_ext. intros i x _. simpl. f_equal. lia.
    + lia.
Qed.

Lemma select_template_total card_type :
  exists t, select_template card_type = Some t.
Proof. unfold select_template. rewrite templates_classic. eauto. Qed.

(** X18. The card is always made. Under the title, every wrapped line is drawn,
    the line of index [i] at [y = 120 + 25 i]: the height of the card is
    not looked at, so from the ninth line on the text lies below the card.
    A line of at most 360 pixels is centred with at least 20 pixels free on
    each side. *)
Theorem card_text_positions card_type message recipient_name :
  exists c,
    create_birthday_card tw card_type message recipient_name = Some c
    /\ card_width c = 400 /\ card_height c = 300
    /\ length (card_texts c) = S (length (wrap_message tw message))
    /\ forall i line,
        wrap_message tw message !! i = Some line ->
        exists t,
          card_texts c !! S i = Some t
          /\ text_txt t = line
          /\ text_y t = 120 + 25 * Z.of_nat i
          /\ ((8 <= i)%nat -> card_height c < text_y t)
          /\ (tw text_font line <= 360 ->
              20 <= text_x t /\ text_x t + tw text_font line <= 380).
Proof.
  unfold create_birthday_card.
  destruct (select_template_total card_type) as [t ->].
  eexists. split; [reflexivity|]. cbv zeta. rewrite draw_fold.
  cbn [fst card_width card_height card_texts app length].
  split; [reflexivity|]. split; [reflexivity|].
  split; [rewrite length_imap; reflexivity|].
  intros i line Hi. eexists. split.
  { rewrite lookup_cons, list_lookup_imap, Hi. reflexivity. }
  cbn [text_txt text_y text_x]. unfold width, height.
  repeat split; try lia; Z.to_euclidean_division_equations; lia.
Qed.

End CardProperties.

(** ** The shape of a birthdate that is read *)

Section BirthdateShape.

Variable nd : Z -> option Z.

Lemma one_within p : matches_within (one p) 1 1.
Proof.
  intros s x r H. unfold one in H. destruct s as [|c s]; [destruct H|].
  destruct (p c); [|destruct H]. destruct H as [[= <- <-]|[]].
  split; [reflexivity | simpl; lia].
Qed.

Lemma cat_within a b la ha lb hb :
  matches_within a la ha -> matches_within b lb hb ->
  matches_within (cat a b) (la + lb) (ha + hb).
Proof.
  intros Ha Hb s x r H. unfold cat in H.
  apply in_flat_map in H. destruct H as ([x1 r1] & H1 & H).
  apply in_map_iff in H. destruct H as ([x2 r2] & [= <- <-] & H2).
  destruct (Ha _ _ _ H1) as [-> L1]. destruct (Hb _ _ _ H2) as [E L2].
  simpl in *. subst r1. rewrite length_app, <- app_assoc.
  split; [reflexivity | lia].
Qed.

Lemma alt_within a b lo hi :
  matches_within a lo hi -> matches_within b lo hi ->
  matches_within (alt a b) lo hi.
Proof.
  intros Ha Hb s x r H. unfold alt in H. apply in_app_iff in H.
  destruct H as [H|H]; [exact (Ha _ _ _ H) | exact (Hb _ _ _ H)].
Qed.

Lemma within_weaken m lo hi lo' hi' :
  (lo' <= lo)%nat -> (hi <= hi')%nat ->
  matches_within m lo hi -> matches_within m lo' hi'.
Proof.
  intros Hl Hh Hm s x r H. destruct (Hm _ _ _ H) as [E L].
  split; [exact E | lia].
Qed.

Lemma re_m_within : matches_within re_m 1 2.
Proof.
  unfold re_m, rng.
  repeat apply alt_within;
    first [ apply (within_weaken _ 2 2);
            [lia | lia | apply (cat_within _ _ 1 1 1 1); apply one_within]
          | apply (within_weaken _ 1 1); [lia | lia | apply one_within] ].
Qed.

Lemma re_d_within : matches_within (re_d nd) 1 2.
Proof.
  unfold re_d, rng, re_digit.
  repeat apply alt_within;
    first [ apply (within_weaken _ 2 2);
            [lia | lia | apply (cat_within _ _ 1 1 1 1); apply one_within]
          | apply (within_weaken _ 1 1); [lia | lia | apply one_within] ].
Qed.

Lemma re_Y_within : matches_within (re_Y nd) 4 4.
Proof.
  unfold re_Y, re_digit.
  apply (cat_within _ _ 1 1 3 3); [apply one_within|].
  apply (cat_within _ _ 1 1 2 2); [apply one_within|].
  apply (cat_within _ _ 1 1 1 1); apply one_within.
Qed.

Lemma re_mdY_shape s gm gd gY rest :
  In (gm, gd, gY, rest) (re_mdY nd s) ->
  s = gm ++ [SLASH] ++ gd ++ [SLASH] ++ gY ++ rest
  /\ (1 <= length gm <= 2)%nat /\ (1 <= length gd <= 2)%nat
  /\ length gY = 4%nat.
Proof.
  unfold re_mdY. intros H.
  apply in_flat_map in H. destruct H as ([xm rm] & Hm & H).
  apply in_flat_map in H. destruct H as ([x1 r1] & Hs1 & H).
  apply in_flat_map in H. destruct H as ([xd rd] & Hd & H).
  apply in_flat_map in H. destruct H as ([x2 r2] & Hs2 & H).
  apply in_map_iff in H. destruct H as ([xY rY] & [= <- <- <- <-] & HY).
  simpl in *.
  destruct (re_m_within _ _ _ Hm) as [-> Lm].
  destruct (re_d_within _ _ _ Hd) as [Ed Ld].
  destruct (re_Y_within _ _ _ HY) as [EY LY].
  unfold re_slash, one in Hs1, Hs2.
  destruct rm as [|c1 rm']; [destruct Hs1|].
  destruct (Z.eqb_spec SLASH c1); [|destruct Hs1].
  destruct Hs1 as [[= <- <-]|[]].
  destruct rd as [|c2 rd']; [destruct Hs2|].
  destruct (Z.eqb_spec SLASH c2); [|destruct Hs2].
  destruct Hs2 as [[= <- <-]|[]].
  subst. simpl. repeat split; lia.
Qed.

(** X20. A birthdate is read only when, its dashes and dots turned into
    slashes, it is a month of one or two characters, a slash, a day of one
    or two characters, a slash and a year of exactly four characters, with
    nothing after; what is read is a date of the calendar, at midnight. A
    year of two digits is never read. *)
Theorem read_birthdate_shape s b :
  strptime_mdY nd s = Some b ->
  (exists gm gd gY,
      s = gm ++ [SLASH] ++ gd ++ [SLASH] ++ gY
      /\ (1 <= length gm <= 2)%nat /\ (1 <= length gd <= 2)%nat
      /\ length gY = 4%nat)
  /\ (8 <= length s <= 10)%nat
  /\ Datetime.valid b = true
  /\ at_midnight b = true.
Proof.
  intros H.
  destruct (strptime_midnight nd s b H) as [Hb Hck].
  assert (Hshape : exists gm gd gY,
             s = gm ++ [SLASH] ++ gd ++ [SLASH] ++ gY
             /\ (1 <= length gm <= 2)%nat /\ (1 <= length gd <= 2)%nat
             /\ length gY = 4%nat).
  { unfold strptime_mdY in H.
    destruct (re_mdY nd s) as [|[[[gm gd] gY] rest] more] eqn:E;
      [discriminate|].
    destruct rest; [|discriminate].
    destruct (re_mdY_shape s gm gd gY []) as (Es & Lm & Ld & LY).
    { rewrite E. left. reflexivity. }
    exists gm, gd, gY. rewrite app_nil_r in Es. auto. }
  split; [exact Hshape|].
  destruct Hshape as (gm & gd & gY & -> & Lm & Ld & LY).
  split; [rewrite !length_app; simpl; lia|].
  rewrite Hb. unfold Datetime.valid, at_midnight.
  cbn [Datetime.year Datetime.month Datetime.day Datetime.hour
       Datetime.minute Datetime.second Datetime.microsecond].
  rewrite Hck. split; reflexivity.
Qed.

End BirthdateShape.

(** ** The year of the occurrence, by the calendar *)

Section OccurrenceYear.

Import Datetime.
Variable nd : Z -> option Z.

(** X22. For a valid clock reading, a computed occurrence keeps the month
    and the day of the birthdate. Its year is the next one when that
    month/day is earlier in the calendar than today's, the current one when
    it is later; when it is today's, the year is the current one only at
    00:00:00.000000 and the next one at any later time of the day. *)
Theorem occurrence_year_by_calendar today c occ :
  valid today = true ->
  occurrence nd today c = Some occ ->
  exists birth,
    strptime_mdY nd (normalize (Contact.Birthdate c)) = Some birth
    /\ month occ = month birth /\ day occ = day birth
    /\ (month birth < month today
        \/ (month birth = month today /\ day birth < day today) ->
        year occ = year today + 1)
    /\ (month today < month birth
        \/ (month birth = month today /\ day today < day birth) ->
        year occ = year today)
    /\ (month birth = month today /\ day birth = day today ->
        year occ = if at_midnight today then year today else year today + 1).
Proof.
  intros Hv Ho.
  destruct (occurrence_cases nd today c occ Ho) as (b & Eb & _ & Hcase).
  destruct (lt_midnight (month b) (day b) today Hv) as [Htrue Hfalse].
  exists b. split; [exact Eb|].
  destruct Hcase as [(Hlt & _ & ->)|(Hlt & ->)];
    cbn [year month day]; (split; [reflexivity|]); (split; [reflexivity|]).
  - specialize (Htrue Hlt). clear Hfalse Hlt Ho.
    repeat split; intros Hc; try reflexivity.
    + destruct Htrue as [?|[[? ?]|(? & ? & ?)]]; lia.
    + destruct Htrue as [?|[[? ?]|(_ & _ & ->)]]; lia.
  - specialize (Hfalse Hlt). clear Htrue Hlt Ho.
    repeat split; intros Hc; try reflexivity.
    + destruct Hfalse as [?|[[? ?]|(? & ? & ?)]]; lia.
    + destruct Hfalse as [?|[[? ?]|(_ & _ & ->)]]; lia.
Qed.

End OccurrenceYear.

(** ** The further properties at sample inputs *)

Lemma parsed_fields_clean_witness :
  Utf8.decode sample_file = Some (py sample_text)
  /\ Forall clean_row (fst (load_contacts_from_file sample_file)).
Proof.
  split; [reflexivity|].
  apply (parsed_fields_clean sample_file (py sample_text)). reflexivity.
Defined.

Lemma blank_file_empty_frame_witness :
  Utf8.decode blank_file = Some [32; 10; 9; 13; 10]
  /\ Forall (fun c => isspace c = true) [32; 10; 9; 13; 10]
  /\ load_contacts_from_file blank_file = ([], []).
Proof.
  assert (Hs : Forall (fun c => isspace c = true) [32; 10; 9; 13; 10])
    by (repeat constructor).
  split; [reflexivity|]. split; [exact Hs|].
  apply (blank_file_empty_frame blank_file [32; 10; 9; 13; 10] eq_refl Hs).
Defined.

Lemma load_concatenated_files_witness :
  Utf8.decode jane_file = Some (py "Jane Smith, 1 Oak Ave, 07/22/1985")
  /\ Utf8.decode alex_file = Some (py "Alex Doe, 5 Elm St, 07/20/1985")
  /\ load_contacts_from_file (jane_file ++ [x0a] ++ alex_file)
     = (fst (load_contacts_from_file jane_file)
        ++ fst (load_contacts_from_file alex_file), []).
Proof.
  split; [reflexivity|]. split; [reflexivity|].
  apply (load_concatenated_files jane_file alex_file
           (py "Jane Smith, 1 Oak Ave, 07/22/1985")
           (py "Alex Doe, 5 Elm St, 07/20/1985")); reflexivity.
Defined.

Lemma ascii_file_always_loads_witness :
  Forall (fun b => Utf8.bz b < 128) jane_file
  /\ load_contacts_from_file jane_file
     = (flat_map spec_line_record (split NL (map Utf8.bz jane_file)), []).
Proof.
  assert (H : Forall (fun b => Utf8.bz b < 128) jane_file)
    by (repeat constructor).
  split; [exact H|]. apply (ascii_file_always_loads jane_file H).
Defined.

Lemma days_until_calendar_witness :
  Datetime.valid morning_2024_07_20 = true
  /\ occurrence ascii_digits_only morning_2024_07_20 jane
     = Some (Datetime.mk_datetime 2024 7 22 0 0 0 0)
  /\ days_until ascii_digits_only morning_2024_07_20 jane
     = Some (Datetime.toordinal (Datetime.mk_datetime 2024 7 22 0 0 0 0)
             - Datetime.toordinal morning_2024_07_20
             - (if at_midnight morning_2024_07_20 then 0 else 1)).
Proof.
  split; [reflexivity|]. split; [reflexivity|].
  apply (days_until_calendar ascii_digits_only morning_2024_07_20 jane);
    reflexivity.
Defined.

Lemma days_until_range_witness :
  Datetime.valid morning_2024_07_20 = true
  /\ days_until ascii_digits_only morning_2024_07_20 alex = Some 364
  /\ 0 <= 364 <= 365
  /\ in_window ascii_digits_only morning_2024_07_20 365 alex = true.
Proof.
  split; [reflexivity|]. split; [reflexivity|].
  destruct (days_until_range ascii_digits_only morning_2024_07_20 alex 364
              eq_refl eq_refl) as [Hr Hw].
  split; [exact Hr|]. apply (Hw 365). lia.
Defined.

Lemma leap_day_birthdate_witness :
  strptime_mdY ascii_digits_only (normalize (Contact.Birthdate leo))
  = Some (Datetime.mk_datetime 2000 2 29 0 0 0 0)
  /\ Datetime.is_leap (Datetime.year noon_2023_03_01) = false
  /\ rows_of ascii_digits_only noon_2023_03_01 365 leo = [].
Proof.
  split; [reflexivity|]. split; [reflexivity|].
  destruct (leap_day_birthdate ascii_digits_only noon_2023_03_01 leo
              (Datetime.mk_datetime 2000 2 29 0 0 0 0) eq_refl eq_refl eq_refl)
    as [Hout _].
  apply Hout. reflexivity.
Defined.

Lemma smaller_horizon_filters_witness :
  7 <= 30
  /\ fst (check_upcoming_birthdays ascii_digits_only morning_2024_07_20
            [jane; kim; lou] 7)
     = List.filter (fun r => Upcoming.Days_Until r <=? 7)
         (fst (check_upcoming_birthdays ascii_digits_only morning_2024_07_20
                 [jane; kim; lou] 30)).
Proof.
  split; [lia|].
  apply (smaller_horizon_filters ascii_digits_only morning_2024_07_20
           [jane; kim; lou] 7 30). lia.
Defined.

Lemma link_injective_without_percent_witness :
  ~ In 37 (py "1 Oak Ave, Troy")
  /\ generate_usps_postage_link (py "1 Oak Ave, Troy")
     = generate_usps_postage_link (py "1 Oak Ave, Troy")
  /\ py "1 Oak Ave, Troy" = py "1 Oak Ave, Troy".
Proof.
  assert (H : ~ In 37 (py "1 Oak Ave, Troy")).
  { vm_compute. intuition discriminate. }
  split; [exact H|]. split; [reflexivity|].
  apply (link_injective_without_percent _ _ H H). reflexivity.
Defined.

Lemma mailing_uses_first_row_witness :
  In (py "Jane Smith") (map Contact.Name [alex; jane; jane_moved])
  /\ py "Jane Smith" <> []
  /\ mailing_options [alex; jane; jane_moved] (py "Jane Smith")
     = Shown (py "1 Oak Ave") (generate_usps_postage_link (py "1 Oak Ave"))
  /\ exists before row after,
      [alex; jane; jane_moved] = before ++ row :: after
      /\ Contact.Name row = py "Jane Smith"
      /\ Forall (fun r => Contact.Name r <> py "Jane Smith") before
      /\ mailing_options [alex; jane; jane_moved] (py "Jane Smith")
         = Shown (Contact.Address row)
             (generate_usps_postage_link (Contact.Address row)).
Proof.
  assert (Hin : In (py "Jane Smith") (map Contact.Name [alex; jane; jane_moved]))
    by (right; left; reflexivity).
  assert (Hne : py "Jane Smith" <> []) by discriminate.
  split; [exact Hin|]. split; [exact Hne|]. split; [reflexivity|].
  exact (mailing_uses_first_row [alex; jane; jane_moved] (py "Jane Smith")
           Hin Hne).
Defined.

Lemma same_day_window_witness :
  Datetime.valid morning_2024_07_20 = true
  /\ strptime_mdY ascii_digits_only (normalize (Contact.Birthdate alex))
     = Some (Datetime.mk_datetime 1985 7 20 0 0 0 0)
  /\ in_window ascii_digits_only morning_2024_07_20 30 alex = false
  /\ in_window ascii_digits_only midnight_2024_07_20 0 alex = true.
Proof.
  split; [reflexivity|]. split; [reflexivity|]. split.
  - destruct (same_day_window ascii_digits_only morning_2024_07_20 alex
                (Datetime.mk_datetime 1985 7 20 0 0 0 0) 30
                eq_refl eq_refl eq_refl eq_refl) as [_ Hafter].
    apply Hafter; [reflexivity | lia].
  - destruct (same_day_window ascii_digits_only midnight_2024_07_20 alex
                (Datetime.mk_datetime 1985 7 20 0 0 0 0) 0
                eq_refl eq_refl eq_refl eq_refl) as [Hmid _].
    apply Hmid; [reflexivity | lia].
Defined.

Lemma read_birthdate_shape_witness :
  strptime_mdY ascii_digits_only (py "7/ 4/1999")
  = Some (Datetime.mk_datetime 1999 7 4 0 0 0 0)
  /\ strptime_mdY ascii_digits_only (py "07/22/85") = None
  /\ (8 <= length (py "7/ 4/1999") <= 10)%nat.
Proof.
  split; [reflexivity|]. split; [reflexivity|].
  destruct (read_birthdate_shape ascii_digits_only (py "7/ 4/1999")
              (Datetime.mk_datetime 1999 7 4 0 0 0 0) eq_refl)
    as (_ & Hlen & _).
  exact Hlen.
Defined.

Lemma occurrence_year_by_calendar_witness :
  Datetime.valid morning_2024_07_20 = true
  /\ occurrence ascii_digits_only morning_2024_07_20 alex
     = Some (Datetime.mk_datetime 2025 7 20 0 0 0 0)
  /\ exists birth,
      strptime_mdY ascii_digits_only (normalize (Contact.Birthdate alex))
      = Some birth
      /\ (Datetime.month birth = 7 /\ Datetime.day birth = 20 ->
          2025 = if at_midnight morning_2024_07_20 then 2024 else 2024 + 1).
Proof.
  split; [reflexivity|]. split; [reflexivity|].
  destruct (occurrence_year_by_calendar ascii_digits_only morning_2024_07_20
              alex (Datetime.mk_datetime 2025 7 20 0 0 0 0) eq_refl eq_refl)
    as (birth & Hb & _ & _ & _ & _ & Hsame).
  exists birth. split; [exact Hb | exact Hsame].
Defined.
